(** * load_gbis: GBIS inversion result to HDF5

    A shallow embedding of [mintpy/load_gbis.py] and the properties of its
    grid reconstruction, model location and metadata merge.

    Conventions of the embedding:
    - a NumPy [float64] is a primitive binary64 [float]; the cast to
      [float32] done by an assignment into a [float32] array is the IEEE
      rounding of the Standard Library's [SpecFloat];
    - a 2-D NumPy array is its shape and its C-ordered (row-major) buffer;
    - a Python [dict] with string keys is a [gmap string _];
    - a Python exception is a constructor of [exn], and code that may raise
      returns a [result];
    - the collaborators outside the file ([np.arctan], the power operator,
      [pyproj.Geod.fwd], [scipy.io.loadmat], [os.path.abspath],
      [writefile.write], [matplotlib]) are fields of the records [NumPy],
      [Geod], [Env];
    - the input file is loaded with [squeeze_me=True], which removes the
      dimensions of length one: a field that holds exactly one element
      arrives as that element and not as a sequence, a mask with a single
      row or column arrives with one dimension, and an empty array arrives
      as an empty sequence. The records below hold the fields as the file
      has them, and [py_len], [struct_getitem], [names_view] and
      [mask_shape] are what the program sees of them;
    - what the program prints is left out. *)

From Stdlib Require Import ZArith Bool Floats Ascii String.
From stdpp Require Import base gmap strings list.

(** ** Exceptions and results *)

Inductive exn : Type :=
| ValueError_unpack (expected got : nat)
    (* "not enough values to unpack" / "too many values to unpack" *)
| ValueError_bool_assign (nvalues ntrue : nat)
    (* "NumPy boolean array indexing assignment cannot assign [nvalues]
       input values to the [ntrue] output values where the mask is true" *)
| IndexError
| KeyError (key : string)
| OSError (path : string)
| TypeError_len
    (* "object of type ... has no len()" *)
| TypeError_subscript
    (* "... object is not subscriptable" *)
| AttributeError (attr : string).

Inductive result (A : Type) : Type :=
| Ok (a : A)
| Raise (e : exn).
Arguments Ok {A} a.
Arguments Raise {A} e.

#[global] Instance result_ret : MRet result := λ A a, Ok a.
#[global] Instance result_bind : MBind result := λ A B k r,
  match r with
  | Ok a => k a
  | Raise e => Raise e
  end.

(** [seq[i]] on a Python sequence. *)
Definition getitem {A : Type} (l : list A) (i : nat) : result A :=
  match l !! i with
  | Some x => Ok x
  | None => Raise IndexError
  end.

(** [len(x)] of a loaded field: a field of exactly one element has been
    squeezed to that element, a float or a structure, which has no length. *)
Definition py_len {A : Type} (l : list A) : result nat :=
  if decide (length l = 1) then Raise TypeError_len else Ok (length l).

(** [x[i]] of a loaded array of structures: a single structure cannot be
    indexed. *)
Definition struct_getitem {A : Type} (l : list A) (i : nat) : result A :=
  if decide (length l = 1) then Raise TypeError_subscript else getitem l i.

(** ** Floating point *)

(** The value a [float64] takes when it is stored in a [float32] array:
    rounded to nearest, ties to even, in the binary32 format (24 bits of
    precision, exponents up to 128), overflowing to an infinity. *)
Definition float32 (x : float) : float :=
  match Prim2SF x with
  | S754_finite s m e => SF2Prim (binary_round 24 128 s m e)
  | _ => x
  end.

(** [np.pi]. *)
Definition np_pi : float := 0x1.921fb54442d18p+1%float.

(** ** NumPy arrays of two dimensions *)

Record ndarray (A : Type) : Type := mk_ndarray {
  shape : nat * nat;
  flat : list A
}.
Arguments mk_ndarray {A} shape flat.
Arguments shape {A} _.
Arguments flat {A} _.

(** The buffer has one cell per index. *)
Definition wf_ndarray {A : Type} (a : ndarray A) : Prop :=
  length (flat a) = fst (shape a) * snd (shape a).

(** [a[r, c]] for in-range [r], [c]: the cell at offset [r * width + c]. *)
Definition item {A : Type} (a : ndarray A) (r c : nat) : option A :=
  if decide (c < snd (shape a)) then flat a !! (r * snd (shape a) + c)
  else None.

(** [np.zeros((length, width), dtype=np.float32) * np.nan] *)
Definition nan_grid (length width : nat) : ndarray float :=
  mk_ndarray (length, width) (replicate (length * width) nan).

(** [mask != 0] *)
Definition ne0 (mask : ndarray Z) : ndarray bool :=
  mk_ndarray (shape mask) ((λ z, negb (z =? 0)%Z) <$> flat mask).

(** [np.count_nonzero] of a boolean buffer. *)
Definition count_true (b : list bool) : nat :=
  length (filter (λ x, x = true) b).

(** The copy loop of a boolean-mask assignment: the buffers are walked
    together; at each true cell the value at [k * stride] is stored, cast to
    the array's [float32], and [k] advances. *)
Fixpoint put_mask (b : list bool) (a v : list float) (stride k : nat)
  : list float :=
  match b, a with
  | bi :: b', x :: a' =>
      if bi
      then default x (float32 <$> v !! (k * stride))
             :: put_mask b' a' v stride (S k)
      else x :: put_mask b' a' v stride k
  | _, _ => a
  end.

(** [a[b] = v] for a boolean index [b] of the shape of [a] and a 1-D [v]:
    a [v] of length one is broadcast (stride zero); any other length must be
    the number of true cells. *)
Definition setitem_bool (a : ndarray float) (b : ndarray bool) (v : list float)
  : result (ndarray float) :=
  let size := count_true (flat b) in
  if decide (length v = 1)
  then Ok (mk_ndarray (shape a) (put_mask (flat b) (flat a) v 0 0))
  else if decide (length v = size)
  then Ok (mk_ndarray (shape a) (put_mask (flat b) (flat a) v 1 0))
  else Raise (ValueError_bool_assign (length v) size).

(** The offsets of the true cells of a buffer that starts at offset [i],
    in buffer order. *)
Fixpoint flatnonzero_from (i : nat) (b : list bool) : list nat :=
  match b with
  | [] => []
  | x :: b' =>
      if x then i :: flatnonzero_from (S i) b' else flatnonzero_from (S i) b'
  end.

Definition flatnonzero (b : list bool) : list nat := flatnonzero_from 0 b.

(** The indices of a [(length, width)] grid in row-major traversal order:
    rows from first to last, and each row from its first column to its last. *)
Definition row_major (length width : nat) : list (nat * nat) :=
  r ← seq 0 length; (λ c, (r, c)) <$> seq 0 width.

(** The index of the cell at a buffer offset. *)
Definition unravel (width p : nat) : nat * nat := (p / width, p mod width).

(** The indices of the non-zero cells of a mask, in row-major order. *)
Definition nonzero (mask : ndarray Z) : list (nat * nat) :=
  filter (λ rc, item (ne0 mask) rc.1 rc.2 = Some true)
         (row_major (fst (shape mask)) (snd (shape mask))).

(** Line 82, [length, width = mask.shape], on a mask loaded from a file
    that holds it with the given shape: an empty mask arrives as an empty
    sequence and a mask of one row or one column as a sequence, whose shape
    has one element; a 1 x 1 mask arrives as a number, which has no shape. *)
Definition mask_shape (mask : ndarray Z) : result (nat * nat) :=
  let '(length, width) := shape mask in
  if decide (length * width = 0) then Raise (ValueError_unpack 2 1)
  else if decide (length = 1 ∧ width = 1) then Raise (AttributeError "shape")
  else if decide (length = 1 ∨ width = 1) then Raise (ValueError_unpack 2 1)
  else Ok (length, width).

(** ** Grid reconstruction (lines 89-94) *)

(** [g = np.zeros(...) * np.nan; g[mask != 0] = values] *)
Definition reconstruct (mask : ndarray Z) (values : list float)
  : result (ndarray float) :=
  let '(length, width) := shape mask in
  setitem_bool (nan_grid length width) (ne0 mask) values.

(** What a grid reconstructed from [mask] and [values] has to be: of the
    shape of the mask, holding at the [k]-th non-zero cell of the mask (in
    row-major order) the [k]-th value as a [float32], and NaN where the
    mask is zero. *)
Definition scattered (mask : ndarray Z) (values : list float)
    (g : ndarray float) : Prop :=
  shape g = shape mask ∧ wf_ndarray g ∧
  (∀ k r c v, nonzero mask !! k = Some (r, c) → values !! k = Some v →
     item g r c = Some (float32 v)) ∧
  (∀ r c, item mask r c = Some 0%Z → item g r c = Some nan).

(** ** Python strings

    Strings are sequences of characters in the range U+0000 to U+00FF, one
    [ascii] each; the white space of [str.split()] is the white space of
    that range. *)

(** [c.isspace()] for the characters up to U+00FF: tab, line feed,
    vertical tab, form feed, carriage return, the four separators FS, GS,
    RS, US, space, next line (U+0085) and no-break space (U+00A0). *)
Definition isspace (c : ascii) : bool :=
  let n := nat_of_ascii c in
  ((9 <=? n) && (n <=? 13)) || ((28 <=? n) && (n <=? 32))
  || (n =? 133) || (n =? 160).

(** [s.replace(' ', '_')] *)
Fixpoint replace_space (s : string) : string :=
  match s with
  | EmptyString => EmptyString
  | String c s' =>
      String (if Ascii.eqb c " " then "_"%char else c) (replace_space s')
  end.

(** [s.split()], with [tok] the token read so far: runs of white space
    separate the tokens and no token is empty. *)
Fixpoint split_from (tok s : string) : list string :=
  match s with
  | EmptyString => if decide (tok = EmptyString) then [] else [tok]
  | String c s' =>
      if isspace c
      then (if decide (tok = EmptyString) then split_from EmptyString s'
            else tok :: split_from EmptyString s')
      else split_from (tok +:+ String c EmptyString) s'
  end.

Definition str_split (s : string) : list string :=
  split_from EmptyString s.

Definition str_startswith_sep (s : string) : bool :=
  match s with
  | String "/" _ => true
  | _ => false
  end.

Fixpoint str_endswith_sep (s : string) : bool :=
  match s with
  | EmptyString => false
  | String c EmptyString => Ascii.eqb c "/"
  | String _ s' => str_endswith_sep s'
  end.

(** [p[:p.rfind('/') + 1]], when [p] has a separator. *)
Fixpoint upto_last_sep (p : string) : option string :=
  match p with
  | EmptyString => None
  | String c p' =>
      match upto_last_sep p' with
      | Some h => Some (String c h)
      | None => if Ascii.eqb c "/" then Some (String c EmptyString) else None
      end
  end.

(** [s.rstrip('/')] *)
Fixpoint rstrip_sep (s : string) : string :=
  match s with
  | EmptyString => EmptyString
  | String c s' =>
      match rstrip_sep s' with
      | EmptyString =>
          if Ascii.eqb c "/" then EmptyString else String c EmptyString
      | t => String c t
      end
  end.

(** [os.path.dirname] (posixpath): the part up to the last separator,
    without its trailing separators unless it consists of separators only. *)
Definition dirname (p : string) : string :=
  let head := default EmptyString (upto_last_sep p) in
  match rstrip_sep head with
  | EmptyString => head
  | t => t
  end.

(** What the program sees of the parameter names: a single name has been
    squeezed to a string, whose items are its characters. *)
Definition names_view (names : list string) : list string :=
  match names with
  | [nm] => (λ c, String c EmptyString) <$> list_ascii_of_string nm
  | _ => names
  end.

(** [os.path.join(a, b)] (posixpath). *)
Definition path_join (a b : string) : string :=
  if str_startswith_sep b then b
  else if decide (a = EmptyString) then b
  else if str_endswith_sep a then a +:+ b
  else a +:+ "/" +:+ b.

(** ** Input records

    The records [scipy.io.loadmat] yields, with the fields the program
    reads. *)

(** A value of a metadata dictionary. *)
Inductive pyval : Type :=
| PyStr (s : string)
| PyFloat (x : float)
| PyInt (z : Z)
| PyList (l : list string).

(** [mat['insar'][i]] *)
Record insar_t : Type := mk_insar { dataPath : string }.

(** [mat['insarPlot'][i]]; [minHeight] is an optional attribute. *)
Record insarPlot_t : Type := mk_insarPlot {
  name : string;
  data : list float;
  model : list float;
  residual : list float;
  minHeight : option float
}.

(** The inversion result file: [mat['invResults'].optimalmodel],
    [mat['invResults'].model.parName], [mat['geo'].referencePoint]. *)
Record mat_t : Type := mk_mat {
  insar : list insar_t;
  insarPlot : list insarPlot_t;
  optimalmodel : list float;
  parName : list string;
  referencePoint : float * float
}.

(** A data file: its ['Mask'] and the attribute dictionary ([vars]) of its
    ['Metadata'] structure, which holds the ['_fieldnames'] entry added by
    the loader. *)
Record data_t : Type := mk_data {
  Mask : ndarray Z;
  Metadata : gmap string pyval
}.

Inductive matfile : Type :=
| InversionFile (m : mat_t)
| DataFile (d : data_t).

(** What is handed to [writefile.write]. *)
Record h5_t : Type := mk_h5 {
  h5_out_file : string;
  h5_dsDict : gmap string (ndarray float);
  h5_metadata : gmap string pyval
}.

(** ** Collaborators *)

(** NumPy's scalar functions: [np.arctan] and the power operator of
    [np.float64], with the values of [np.arctan] at the infinities and at
    NaN as its documentation gives them. *)
Record NumPy : Type := mk_NumPy {
  arctan : float → float;
  power : float → float → float;
  arctan_pinf : arctan infinity = (np_pi / 2)%float;
  arctan_ninf : arctan neg_infinity = (- (np_pi / 2))%float;
  arctan_nan : arctan nan = nan
}.

(** [pyproj.Geod(ellps='WGS84').fwd(lon, lat, az, dist, radians=False)]:
    longitude, latitude and back azimuth of the destination. *)
Record Geod : Type := mk_Geod {
  fwd : float → float → float → float → float * float * float
}.

(** The file system, the writer and the plotting library. *)
Record Env : Type := mk_Env {
  loadmat : string → result matfile;
  abspath : string → string;
  (** [writefile.write(dsDict, out_file=out_file, metadata=meta)] *)
  writefile_write :
    gmap string (ndarray float) → string → gmap string pyval → result unit;
  (** [plt.subplots(nrows=num_file, ncols=3, figsize=...)] *)
  plt_subplots : nat → result unit;
  (** the panels of record [i] of [num_file] (lines 116-120) *)
  plt_panels :
    nat → nat → string → ndarray float → ndarray float → ndarray float →
    result unit;
  (** titles and [plt.show()] (lines 123-127) *)
  plt_show : nat → result unit
}.

(** ** The conversion (lines 40-128) *)

Section Conversion.
Context (np : NumPy) (geod : Geod) (env : Env).

(** Lines 53-56: [mDict[parName[i].replace(' ', '_')] = parValue[i]] for
    [i] in [range(len(parValue))]; [vals] is what is left of [parValue]
    from index [i] on. *)
Fixpoint mDict_loop (i : nat) (vals : list float) (names : list string)
    (mDict : gmap string float) : result (gmap string float) :=
  match vals with
  | [] => Ok mDict
  | v :: vals' =>
      nm ← getitem names i;
      mDict_loop (S i) vals' names (<[replace_space nm := v]> mDict)
  end.


(** [a, b = l] *)
Definition unpack2 {A : Type} (l : list A) : result (A * A) :=
  match l with
  | [a; b] => Ok (a, b)
  | _ => Raise (ValueError_unpack 2 (length l))
  end.

(** Line 63: [np.arctan(mX/mY) * 180 / np.pi] *)
Definition azimuth (mX mY : float) : float :=
  (arctan np (mX / mY) * 180 / np_pi)%float.

(** Line 64: [(mX**2 + mY**2)**0.5] *)
Definition distance (mX mY : float) : float :=
  power np (power np mX 2 + power np mY 2)%float 0.5%float.

(** Lines 59-65: the model location, as (longitude, latitude). *)
Definition model_location (parValue : list float) (ref : float * float)
  : result (float * float) :=
  let '(ref_lon, ref_lat) := ref in
  '(mX, mY) ← unpack2 (take 2 parValue);
  let '(mLon, mLat, _) :=
    fwd geod ref_lon ref_lat (azimuth mX mY) (distance mX mY) in
  Ok (mLon, mLat).

(** Lines 51-68: the global parameter dictionary. *)
Definition global_mDict (mat : mat_t) : result (gmap string float) :=
  n ← py_len (optimalmodel mat);
  mDict ← mDict_loop 0 (optimalmodel mat) (names_view (parName mat)) ∅;
  '(mLon, mLat) ← model_location (optimalmodel mat) (referencePoint mat);
  nm ← getitem (names_view (parName mat)) 0;
  modelName ← getitem (str_split nm) 0;
  Ok (<[modelName +:+ "_longitude" := mLon]>
        (<[modelName +:+ "_latitude" := mLat]> mDict)).

(** [sio.loadmat(data_file, ...)[key]] for a key of a data file. *)
Definition load_data (data_file key : string) : result data_t :=
  f ← loadmat env data_file;
  match f with
  | DataFile d => Ok d
  | InversionFile _ => Raise (KeyError key)
  end.

(** [meta.pop('_fieldnames')] *)
Definition pop_fieldnames (meta : gmap string pyval)
  : result (gmap string pyval) :=
  match meta !! "_fieldnames" with
  | Some _ => Ok (delete "_fieldnames" meta)
  | None => Raise (KeyError "_fieldnames")
  end.

(** Lines 104-105: [for key, value in mDict.items(): meta[key] = value] *)
Definition update_from (mDict : gmap string float)
    (meta : gmap string pyval) : gmap string pyval :=
  map_fold (λ key value meta, <[key := PyFloat value]> meta) meta mDict.

(** Lines 97-105: the metadata of one record. *)
Definition prepare_metadata (file_meta : gmap string pyval)
    (plot : insarPlot_t) (mDict : gmap string float)
  : result (gmap string pyval) :=
  meta ← pop_fieldnames file_meta;
  let meta := <["UNIT" := PyStr "m"]> meta in
  let meta := <["FILE_TYPE" := PyStr "displacement"]> meta in
  let meta := <["PROCESSOR" := PyStr "isce"]> meta in
  let meta :=
    match minHeight plot with
    | Some h => <["MODEL_MIN_HEIGHT" := PyFloat h]> meta
    | None => meta
    end in
  Ok (update_from mDict meta).

(** Line 86: the name of the output file of a record. *)
Definition out_file_of (out_dir : string) (plot : insarPlot_t) : string :=
  path_join out_dir (name plot +:+ ".h5").

(** Lines 76-111 for record [i]: the record, its three grids, and the
    output file name, datasets and metadata handed to the writer. *)
Definition prepare_record (mat : mat_t) (mDict : gmap string float)
    (out_dir : string) (i : nat)
  : result (insarPlot_t * (ndarray float * ndarray float * ndarray float)
            * h5_t) :=
  rec ← struct_getitem (insar mat) i;
  let data_file := dataPath rec in
  d ← load_data data_file "Mask";
  let mask := Mask d in
  shp ← mask_shape mask;
  plot ← struct_getitem (insarPlot mat) i;
  let out_file := out_file_of out_dir plot in
  g_data ← reconstruct mask (data plot);
  g_model ← reconstruct mask (model plot);
  g_residual ← reconstruct mask (residual plot);
  d' ← load_data data_file "Metadata";
  meta ← prepare_metadata (Metadata d') plot mDict;
  let dsDict :=
    <["residual" := g_residual]>
      (<["model" := g_model]> (<["data" := g_data]> ∅)) in
  Ok (plot, (g_data, g_model, g_residual), mk_h5 out_file dsDict meta).

(** The loop of lines 75-120 over the indices [idx], with the output file
    names and the files written so far. An exception leaves the files
    already written in place. *)
Fixpoint record_loop (mat : mat_t) (mDict : gmap string float)
    (out_dir : string) (display : bool) (num_file : nat) (idx : list nat)
    (out_files : list string) (written : list h5_t)
  : list h5_t * result (list string) :=
  match idx with
  | [] => (written, Ok out_files)
  | i :: idx' =>
      match prepare_record mat mDict out_dir i with
      | Raise e => (written, Raise e)
      | Ok (plot, (g_data, g_model, g_residual), h) =>
          match writefile_write env (h5_dsDict h) (h5_out_file h)
                  (h5_metadata h) with
          | Raise e => (written, Raise e)
          | Ok _ =>
              let written := written ++ [h] in
              let plotted :=
                if display
                then
                  (* [axs[i, :]]: with one row of panels [axs] has one
                     dimension *)
                  if decide (num_file = 1) then Raise IndexError
                  else plt_panels env num_file i (name plot)
                         g_data g_model g_residual
                else Ok () in
              match plotted with
              | Raise e => (written, Raise e)
              | Ok _ =>
                  record_loop mat mDict out_dir display num_file idx'
                    (out_files ++ [h5_out_file h]) written
              end
          end
      end
  end.

(** [gbis_mat2hdf5(mat_file, display)]: the files written and the value
    returned or the exception raised. *)
Definition gbis_mat2hdf5 (mat_file : string) (display : bool)
  : list h5_t * result (list string) :=
  let out_dir := dirname mat_file in
  let setup :=
    f ← loadmat env mat_file;
    mat ← match f with
          | InversionFile m => Ok m
          | DataFile _ => Raise (KeyError "insar")
          end;
    num_file ← py_len (insar mat);
    mDict ← global_mDict mat;
    fig ← (if display then plt_subplots env num_file else Ok ());
    Ok (mat, num_file, mDict) in
  match setup with
  | Raise e => ([], Raise e)
  | Ok (mat, num_file, mDict) =>
      match record_loop mat mDict out_dir display num_file
              (seq 0 num_file) [] [] with
      | (written, Raise e) => (written, Raise e)
      | (written, Ok out_files) =>
          match (if display then plt_show env num_file else Ok ()) with
          | Raise e => (written, Raise e)
          | Ok _ => (written, Ok out_files)
          end
      end
  end.

(** ** The command line (lines 33-37, 132-137) *)

(** The parsed arguments: the input file, the [--output] name and the
    display flag. *)
Record inps_t : Type := mk_inps {
  file : string;
  outfile : option string;
  disp_fig : bool
}.

(** [cmd_line_parse], from the arguments as [argparse] read them. *)
Definition cmd_line_parse (iargs : inps_t) : inps_t :=
  mk_inps (abspath env (file iargs)) (outfile iargs) (disp_fig iargs).

Definition main (iargs : inps_t) : list h5_t * result (list string) :=
  let inps := cmd_line_parse iargs in
  gbis_mat2hdf5 (file inps) (disp_fig inps).

End Conversion.

(** ** The merge by precedence

    The metadata of a record as four mappings merged by precedence, the
    stage that comes later in the program standing to the left of the one
    it overwrites ([∪] keeps the binding of its left operand): the global
    parameters, the minimum height when the record has one, the three
    tags, the metadata of the file without its bookkeeping entry. *)

Definition processing_tags : gmap string pyval :=
  <["PROCESSOR" := PyStr "isce"]>
    (<["FILE_TYPE" := PyStr "displacement"]> {["UNIT" := PyStr "m"]}).

Definition minHeight_tag (plot : insarPlot_t) : gmap string pyval :=
  match minHeight plot with
  | Some h => {["MODEL_MIN_HEIGHT" := PyFloat h]}
  | None => ∅
  end.

Definition merge_by_precedence (file_meta : gmap string pyval)
    (plot : insarPlot_t) (mDict : gmap string float) : gmap string pyval :=
  (PyFloat <$> mDict) ∪
  (minHeight_tag plot ∪
   (processing_tags ∪ delete "_fieldnames" file_meta)).


(** ** Runs in two environments *)

(** The files a conversion of [mat_file] reads: the inversion result and
    the data files it names. *)
Definition files_read (env : Env) (mat_file : string) : list string :=
  mat_file ::
  match loadmat env mat_file with
  | Ok (InversionFile mat) => dataPath <$> insar mat
  | _ => []
  end.

(** Two environments hold the same content at the given paths. *)
Definition same_files (env1 env2 : Env) (paths : list string) : Prop :=
  ∀ p, p ∈ paths → loadmat env1 p = loadmat env2 p.

(** The writer and the plotting library answer alike in two environments. *)
Definition same_collaborators (env1 env2 : Env) : Prop :=
  (∀ ds f m, writefile_write env1 ds f m = writefile_write env2 ds f m) ∧
  (∀ n, plt_subplots env1 n = plt_subplots env2 n) ∧
  (∀ n i nm d m r, plt_panels env1 n i nm d m r = plt_panels env2 n i nm d m r) ∧
  (∀ n, plt_show env1 n = plt_show env2 n).

(** ** Instances for running the conversion

    Stand-ins for the collaborators, on which the conversion can be
    evaluated: an arc tangent that is exact at the infinities and at NaN
    and a rational approximation between them, a power operator for the two
    exponents the program uses, a planar destination function, and a file
    system that holds an inversion result of two images and their two
    data files. *)

Definition arctan_ex (x : float) : float :=
  if (x =? infinity)%float then (np_pi / 2)%float
  else if (x =? neg_infinity)%float then (- (np_pi / 2))%float
  else if is_nan x then nan
  else (x / (1 + 0x1.2p-2 * x * x))%float.

Definition power_ex (x y : float) : float :=
  if (y =? 2)%float then (x * x)%float
  else if (y =? 0.5)%float then sqrt x
  else nan.

Definition np_ex : NumPy :=
  mk_NumPy arctan_ex power_ex eq_refl eq_refl eq_refl.

Definition geod_ex : Geod :=
  mk_Geod (λ lon lat az dist, ((lon + az)%float, (lat + dist)%float, az)).

(** A 2 x 3 mask with three non-zero cells. *)
Definition mask_ex : ndarray Z := mk_ndarray (2, 3) [0; 1; 0; 5; -1; 0]%Z.

Definition data_ex : data_t :=
  mk_data mask_ex
    (<["_fieldnames" := PyList ["WIDTH"; "UNIT"]]>
       (<["WIDTH" := PyInt 3]> (<["UNIT" := PyStr "radian"]> ∅))).

(** A 2 x 2 mask with two non-zero cells, and a second data file. *)
Definition mask_ex2 : ndarray Z := mk_ndarray (2, 2) [1; 0; 0; 1]%Z.

Definition data_ex2 : data_t :=
  mk_data mask_ex2
    (<["_fieldnames" := PyList ["WIDTH"]]> (<["WIDTH" := PyInt 2]> ∅)).

(** An inversion result of two images, whose first and third parameter
    names become the same key. *)
Definition mat_ex : mat_t :=
  mk_mat [mk_insar "/d/a.mat"; mk_insar "/d/b.mat"]
    [mk_insarPlot "T1_x" [1; 2; 3]%float [4; 5; 6]%float [7; 8; 9]%float
       (Some 2%float);
     mk_insarPlot "T2_y" [1.5; 2.5]%float [3.5; 4.5]%float [5.5; 6.5]%float
       None]
    [3; 4; 7]%float ["FAUL X"; "FAUL Y"; "FAUL_X"] (10, 20)%float.

Definition loadmat_ex (p : string) : result matfile :=
  if decide (p = "/r/inv.mat") then Ok (InversionFile mat_ex)
  else if decide (p = "/d/a.mat") then Ok (DataFile data_ex)
  else if decide (p = "/d/b.mat") then Ok (DataFile data_ex2)
  else Raise (OSError p).

Definition env_ex : Env :=
  mk_Env loadmat_ex (λ p, "/r/" +:+ p)
    (λ _ _ _, Ok ()) (λ _, Ok ()) (λ _ _ _ _ _ _, Ok ()) (λ _, Ok ()).

(** The same files under a different working directory, with a further
    file that the inversion result does not name. *)
Definition env_ex' : Env :=
  mk_Env
    (λ p, if decide (p = "/d/c.mat") then Ok (DataFile data_ex)
          else loadmat_ex p)
    (λ p, "/home/" +:+ p)
    (λ _ _ _, Ok ()) (λ _, Ok ()) (λ _ _ _ _ _ _, Ok ()) (λ _, Ok ()).





(** An inversion result whose model lies due east of the reference point:
    its second optimal-model value is zero. *)
Definition mat_east : mat_t :=
  mk_mat [] [] [1; 0]%float ["FAUL X"; "FAUL Y"] (10, 20)%float.

(** The [float64] nearest to one tenth. *)
Definition tenth : float := 0x1.999999999999ap-4%float.

(** * Properties *)

(** ** Grid reconstruction *)

Lemma length_put_mask b a v stride k :
  length (put_mask b a v stride k) = length a.
Proof.
  revert a k. induction b as [|bi b IH]; intros [|x a] k; simpl; try done.
  destruct bi; simpl; by rewrite IH.
Qed.

Lemma length_flatnonzero_from i b :
  length (flatnonzero_from i b) = count_true b.
Proof.
  revert i. induction b as [|x b IH]; intros i; [done|].
  unfold count_true in *. destruct x; cbn [flatnonzero_from].
  - rewrite filter_cons_True by done. cbn [length]. by rewrite IH.
  - rewrite filter_cons_False by done. by rewrite IH.
Qed.

(** The offsets listed are offsets of true cells, at or after the start. *)
Lemma flatnonzero_from_lookup i b k p :
  flatnonzero_from i b !! k = Some p →
  i ≤ p ∧ b !! (p - i) = Some true.
Proof.
  revert i k. induction b as [|x b IH]; intros i k Hk; [done|].
  simpl in Hk. destruct x.
  - destruct k as [|k]; simpl in Hk.
    + inversion Hk; subst. by rewrite Nat.sub_diag.
    + apply IH in Hk as [Hle Hb]. split; [lia|].
      replace (p - i) with (S (p - S i)) by lia. done.
  - apply IH in Hk as [Hle Hb]. split; [lia|].
    replace (p - i) with (S (p - S i)) by lia. done.
Qed.

(** At the [k]-th true cell the copy loop stores the cast of the value at
    [(k0 + k) * stride], when there is one. *)
Lemma put_mask_lookup_true b a v stride k0 i k p y :
  length a = length b →
  flatnonzero_from i b !! k = Some p →
  v !! ((k0 + k) * stride) = Some y →
  put_mask b a v stride k0 !! (p - i) = Some (float32 y).
Proof.
  revert a k0 i k. induction b as [|x b IH]; intros a k0 i k Hlen Hk Hy; [done|].
  destruct a as [|x0 a]; [done|]. simpl in Hlen, Hk |- *. destruct x.
  - destruct k as [|k]; simpl in Hk.
    + inversion Hk; subst. rewrite Nat.sub_diag. simpl.
      rewrite Nat.add_0_r in Hy. by rewrite Hy.
    + pose proof (flatnonzero_from_lookup _ _ _ _ Hk) as [Hle _].
      replace (p - i) with (S (p - S i)) by lia. simpl.
      eapply IH; [lia|done|]. by replace (S k0 + k) with (k0 + S k) by lia.
  - pose proof (flatnonzero_from_lookup _ _ _ _ Hk) as [Hle _].
    replace (p - i) with (S (p - S i)) by lia. simpl.
    eapply IH; [lia|done|done].
Qed.

(** A false cell is left as it was. *)
Lemma put_mask_lookup_false b a v stride k q :
  b !! q = Some false →
  put_mask b a v stride k !! q = a !! q.
Proof.
  revert a k q. induction b as [|x b IH]; intros a k q Hq; [done|].
  destruct a as [|x0 a]; [done|]. destruct q as [|q]; simpl in Hq.
  - inversion Hq; subst. done.
  - simpl. destruct x; simpl; by apply IH.
Qed.

(** *** Row-major order and buffer order *)

Lemma filter_fmap_comm {A B : Type} (f : A → B) (P : B → Prop)
    `{!∀ y, Decision (P y)} (l : list A) :
  filter P (f <$> l) = f <$> filter (λ x, P (f x)) l.
Proof.
  induction l as [|x l IH]; [done|]. rewrite fmap_cons.
  destruct (decide (P (f x))).
  - rewrite !filter_cons_True by done. by rewrite fmap_cons, IH.
  - by rewrite !filter_cons_False by done.
Qed.

Lemma filter_ext_elem {A : Type} (P Q : A → Prop)
    `{!∀ x, Decision (P x)} `{!∀ x, Decision (Q x)} (l : list A) :
  (∀ x, x ∈ l → P x ↔ Q x) → filter P l = filter Q l.
Proof.
  induction l as [|x l IH]; intros HPQ; [done|].
  assert (filter P l = filter Q l) as Hl.
  { apply IH. intros y Hy. apply HPQ. by right. }
  destruct (decide (P x)) as [HP|HP].
  - rewrite !filter_cons_True; [by rewrite Hl|by apply HPQ; [left|]|done].
  - rewrite !filter_cons_False; [done| |done].
    intros HQ. apply HP, HPQ; [left|done].
Qed.

(** The true offsets of a buffer are the offsets of [seq] that hold true. *)
Lemma flatnonzero_from_filter i b :
  flatnonzero_from i b
  = filter (λ p, b !! (p - i) = Some true) (seq i (length b)).
Proof.
  revert i. induction b as [|x b IH]; intros i; [done|].
  cbn [flatnonzero_from length seq].
  assert (filter (λ p, (x :: b) !! (p - i) = Some true) (seq (S i) (length b))
          = flatnonzero_from (S i) b) as Htl.
  { rewrite IH. apply filter_ext_elem. intros p Hp.
    apply elem_of_seq in Hp. by replace (p - i) with (S (p - S i)) by lia. }
  destruct x.
  - rewrite filter_cons_True by (by rewrite Nat.sub_diag). by rewrite Htl.
  - rewrite filter_cons_False by (by rewrite Nat.sub_diag). by rewrite Htl.
Qed.

Lemma unravel_ravel width r c :
  c < width → unravel width (r * width + c) = (r, c).
Proof.
  intros Hc. unfold unravel. f_equal.
  - symmetry. apply (Nat.div_unique _ _ _ c); lia.
  - symmetry. apply (Nat.mod_unique _ _ r); lia.
Qed.

(** Row-major traversal visits the cells in the order of their offsets. *)
Lemma row_major_unravel length width :
  row_major length width = unravel width <$> seq 0 (length * width).
Proof.
  unfold row_major. induction length as [|n IH]; [done|].
  rewrite seq_S, bind_app, IH. cbn [mbind list_bind Nat.add].
  rewrite app_nil_r.
  replace (S n * width) with (n * width + width) by lia.
  rewrite seq_app, fmap_app. f_equal. cbn [Nat.add].
  rewrite <- (Nat.add_0_r (n * width)) at 1.
  rewrite <- fmap_add_seq, <- list_fmap_compose.
  apply list_fmap_ext. intros i c Hc. apply lookup_seq in Hc as [-> Hi].
  simpl. symmetry. by apply unravel_ravel.
Qed.

(** On a well-formed mask, the non-zero cells in row-major order are the
    cells at the true offsets of [mask != 0], in buffer order. *)
Lemma nonzero_flatnonzero mask :
  wf_ndarray mask →
  nonzero mask = unravel (shape mask).2 <$> flatnonzero (flat (ne0 mask)).
Proof.
  unfold wf_ndarray, nonzero, flatnonzero. intros Hwf.
  rewrite row_major_unravel, filter_fmap_comm, flatnonzero_from_filter.
  f_equal.
  replace (length (flat (ne0 mask))) with ((shape mask).1 * (shape mask).2)
    by (unfold ne0; cbn [flat]; by rewrite length_fmap).
  apply filter_ext_elem. intros p Hp. apply elem_of_seq in Hp.
  rewrite Nat.sub_0_r. unfold item, unravel; cbn [fst snd shape ne0].
  assert (0 < (shape mask).2) as Hw by (destruct ((shape mask).2); lia).
  rewrite decide_True by (apply Nat.mod_upper_bound; lia).
  replace (p / (shape mask).2 * (shape mask).2 + p mod (shape mask).2)
    with p; [done|].
  rewrite (Nat.div_mod p ((shape mask).2)) at 1 by lia. lia.
Qed.

Lemma length_nonzero mask :
  wf_ndarray mask → length (nonzero mask) = count_true (flat (ne0 mask)).
Proof.
  intros Hwf. rewrite nonzero_flatnonzero by done.
  by rewrite length_fmap; unfold flatnonzero; rewrite length_flatnonzero_from.
Qed.

Lemma item_unravel {A : Type} (a : ndarray A) p :
  0 < (shape a).2 →
  item a (unravel (shape a).2 p).1 (unravel (shape a).2 p).2 = flat a !! p.
Proof.
  intros Hw. unfold item, unravel; cbn [fst snd].
  rewrite decide_True by (apply Nat.mod_upper_bound; lia).
  f_equal. rewrite (Nat.div_mod p ((shape a).2)) at 3 by lia. lia.
Qed.

Lemma reconstruct_shape mask values g :
  reconstruct mask values = Ok g →
  shape g = shape mask ∧ length (flat g) = (shape mask).1 * (shape mask).2.
Proof.
  unfold reconstruct, setitem_bool. destruct (shape mask) as [h w] eqn:Hs.
  intros Hg. repeat case_decide; inversion Hg; subst; cbn [shape flat nan_grid];
    by rewrite length_put_mask, length_replicate.
Qed.

(** Whichever branch of the assignment ran, a grid it returned holds NaN
    where the mask is zero. *)
Lemma reconstruct_zero mask values g r c :
  wf_ndarray mask →
  reconstruct mask values = Ok g →
  item mask r c = Some 0%Z → item g r c = Some nan.
Proof.
  intros Hwf Hg Hz. pose proof (reconstruct_shape _ _ _ Hg) as [Hsh _].
  unfold item in *. rewrite Hsh. case_decide; [|done].
  set (q := r * (shape mask).2 + c) in *.
  assert (flat (ne0 mask) !! q = Some false) as Hb.
  { unfold ne0; cbn [flat]. by rewrite list_lookup_fmap, Hz. }
  assert (q < (shape mask).1 * (shape mask).2) as Hq.
  { rewrite <- Hwf. by eapply lookup_lt_Some. }
  unfold reconstruct, setitem_bool in Hg. destruct (shape mask) as [h w].
  repeat case_decide; inversion Hg; subst; cbn [flat nan_grid];
    rewrite put_mask_lookup_false by done; by apply lookup_replicate_2.
Qed.

(** With as many values as non-zero cells, the assignment succeeds and the
    [k]-th non-zero cell receives the [k]-th value. *)
Lemma reconstruct_scattered mask values :
  wf_ndarray mask →
  length values = length (nonzero mask) →
  ∃ g, reconstruct mask values = Ok g ∧ scattered mask values g.
Proof.
  intros Hwf Hlen.
  assert (∃ g, reconstruct mask values = Ok g) as [g Hg].
  { rewrite length_nonzero in Hlen by done.
    unfold reconstruct, setitem_bool. destruct (shape mask).
    repeat case_decide; by eauto. }
  exists g. split; [done|].
  pose proof (reconstruct_shape _ _ _ Hg) as [Hsh Hlg].
  split; [done|]. split; [unfold wf_ndarray; by rewrite Hsh|].
  split; [|intros r c; by eapply reconstruct_zero].
  intros k r c v Hk Hv.
  pose proof (lookup_lt_Some _ _ _ Hv) as Hkv.
  rewrite nonzero_flatnonzero in Hk by done.
  apply list_lookup_fmap_Some in Hk as (p & Hrc & Hp).
  pose proof (flatnonzero_from_lookup _ _ _ _ Hp) as [_ Hbp].
  rewrite Nat.sub_0_r in Hbp. apply lookup_lt_Some in Hbp.
  unfold ne0 in Hbp; cbn [flat] in Hbp. rewrite length_fmap, Hwf in Hbp.
  assert (0 < (shape mask).2) as Hw by (destruct ((shape mask).2); lia).
  assert (item g r c = flat g !! (p - 0)) as ->.
  { rewrite Nat.sub_0_r, <- item_unravel by (by rewrite Hsh).
    by rewrite Hsh, <- Hrc. }
  assert (length (replicate ((shape mask).1 * (shape mask).2) nan)
          = length (flat (ne0 mask))) as Hrep.
  { unfold ne0; cbn [flat]. by rewrite length_replicate, length_fmap. }
  unfold reconstruct, setitem_bool in Hg. destruct (shape mask) as [h w].
  cbn [fst snd] in *. case_decide as H1.
  - inversion Hg; subst; cbn [flat nan_grid].
    assert (k = 0) as -> by lia.
    by apply (put_mask_lookup_true _ _ _ 0 0 0 0).
  - case_decide; inversion Hg; subst; cbn [flat nan_grid].
    apply (put_mask_lookup_true _ _ _ 1 0 0 k); [done|done|].
    by rewrite Nat.add_0_l, Nat.mul_1_r.
Qed.

(** A single value is assigned to every non-zero cell. *)
Lemma reconstruct_broadcast mask v :
  wf_ndarray mask →
  ∃ g, reconstruct mask [v] = Ok g ∧
    ∀ k r c, nonzero mask !! k = Some (r, c) → item g r c = Some (float32 v).
Proof.
  intros Hwf.
  assert (∃ g, reconstruct mask [v] = Ok g) as [g Hg].
  { unfold reconstruct, setitem_bool. destruct (shape mask).
    case_decide; [by eauto|done]. }
  exists g. split; [done|]. intros k r c Hk.
  pose proof (reconstruct_shape _ _ _ Hg) as [Hsh Hlg].
  rewrite nonzero_flatnonzero in Hk by done.
  apply list_lookup_fmap_Some in Hk as (p & Hrc & Hp).
  pose proof (flatnonzero_from_lookup _ _ _ _ Hp) as [_ Hbp].
  rewrite Nat.sub_0_r in Hbp. apply lookup_lt_Some in Hbp.
  unfold ne0 in Hbp; cbn [flat] in Hbp. rewrite length_fmap, Hwf in Hbp.
  assert (0 < (shape mask).2) as Hw by (destruct ((shape mask).2); lia).
  assert (item g r c = flat g !! (p - 0)) as ->.
  { rewrite Nat.sub_0_r, <- item_unravel by (by rewrite Hsh).
    by rewrite Hsh, <- Hrc. }
  unfold reconstruct, setitem_bool in Hg. unfold wf_ndarray in Hwf.
  destruct (shape mask) as [h w].
  rewrite decide_True in Hg by done. inversion Hg; subst; cbn [flat nan_grid].
  apply (put_mask_lookup_true _ _ _ 0 0 0 k); [|done|by rewrite Nat.mul_0_r].
  unfold ne0; cbn [flat]. rewrite length_replicate, length_fmap.
  symmetry. apply Hwf.
Qed.

(** C2, as the code has it. For every well-formed mask and three value
    sequences, each as long as the mask has non-zero cells, the three
    reconstructions succeed, and each grid has the shape of the mask, holds
    at the k-th non-zero cell of the mask in row-major order the k-th value
    of its sequence rounded to single precision (the grids are [float32]
    arrays), and holds NaN wherever the mask is zero. *)
Theorem reconstruct_three_grids mask d m r :
  wf_ndarray mask →
  length d = length (nonzero mask) →
  length m = length (nonzero mask) →
  length r = length (nonzero mask) →
  ∃ g_data g_model g_residual,
    reconstruct mask d = Ok g_data ∧
    reconstruct mask m = Ok g_model ∧
    reconstruct mask r = Ok g_residual ∧
    scattered mask d g_data ∧ scattered mask m g_model ∧
    scattered mask r g_residual.
Proof.
  intros Hwf Hd Hm Hr.
  destruct (reconstruct_scattered mask d Hwf Hd) as (gd & ? & ?).
  destruct (reconstruct_scattered mask m Hwf Hm) as (gm & ? & ?).
  destruct (reconstruct_scattered mask r Hwf Hr) as (gr & ? & ?).
  by exists gd, gm, gr.
Qed.

Lemma reconstruct_three_grids_witness :
  ∃ g_data g_model g_residual,
    reconstruct mask_ex [1; 2; 3]%float = Ok g_data ∧
    reconstruct mask_ex [4; 5; 6]%float = Ok g_model ∧
    reconstruct mask_ex [7; 8; 9]%float = Ok g_residual ∧
    scattered mask_ex [1; 2; 3]%float g_data ∧
    scattered mask_ex [4; 5; 6]%float g_model ∧
    scattered mask_ex [7; 8; 9]%float g_residual.
Proof.
  apply (reconstruct_three_grids mask_ex); vm_compute; reflexivity.
Defined.

(** C2, as the claim states it, fails: the value stored at a non-zero cell
    is the single-precision rounding of the sequence's value, which is not
    that value when it is not a [float32]. Here the mask is 2 x 2 with two
    non-zero cells, the sequence is [[0.1; 1]], and the first non-zero cell
    holds 0.100000001490116119384765625. *)
Lemma reconstruct_rounds_to_float32 :
  wf_ndarray mask_ex2 ∧
  shape mask_ex2 = (2, 2) ∧
  length [tenth; 1%float] = length (nonzero mask_ex2) ∧
  nonzero mask_ex2 !! 0 = Some (0, 0) ∧
  [tenth; 1%float] !! 0 = Some tenth ∧
  ∃ g, reconstruct mask_ex2 [tenth; 1%float] = Ok g ∧
       item g 0 0 = Some 0x1.99999ap-4%float ∧
       item g 0 0 ≠ Some tenth.
Proof.
  repeat split; try (vm_compute; reflexivity).
  eexists. split; [vm_compute; reflexivity|]. split; [vm_compute; reflexivity|].
  intros H. apply (f_equal (λ o, from_option (λ x, (x =? tenth)%float) true o)) in H.
  vm_compute in H. discriminate.
Qed.

(** C3, as the code has it. For every well-formed mask and value sequence,
    the reconstruction raises if and only if the length of the sequence is
    neither the number of non-zero cells of the mask nor one, and what it
    raises is the assignment's [ValueError] with the number of values given
    and the number of non-zero cells. *)
Theorem reconstruct_raises_iff mask values :
  wf_ndarray mask →
  ((∃ e, reconstruct mask values = Raise e) ↔
     length values ≠ length (nonzero mask) ∧ length values ≠ 1) ∧
  (∀ e, reconstruct mask values = Raise e →
     e = ValueError_bool_assign (length values) (length (nonzero mask))).
Proof.
  intros Hwf. rewrite length_nonzero by done.
  unfold reconstruct, setitem_bool. destruct (shape mask) as [h w].
  repeat case_decide; (split; [split|]).
  all: try (intros [e He]; discriminate He).
  all: try (intros [? ?]; done).
  all: try (intros e He; by inversion He).
  intros _. by eauto.
Qed.

Lemma reconstruct_raises_iff_witness :
  ((∃ e, reconstruct mask_ex [1; 2]%float = Raise e) ↔
     length [1; 2]%float ≠ length (nonzero mask_ex) ∧
     length [1; 2]%float ≠ 1) ∧
  (∀ e, reconstruct mask_ex [1; 2]%float = Raise e →
     e = ValueError_bool_assign (length [1; 2]%float)
           (length (nonzero mask_ex))).
Proof.
  apply (reconstruct_raises_iff mask_ex). vm_compute. reflexivity.
Defined.

(** C3, as the claim states it, fails: a sequence of one value is not as
    long as the three non-zero cells of the mask, and the reconstruction
    succeeds, putting the value in each of them. *)
Lemma reconstruct_broadcasts_single_value :
  wf_ndarray mask_ex ∧
  length [2%float] ≠ length (nonzero mask_ex) ∧
  reconstruct mask_ex [2%float]
  = Ok (mk_ndarray (2, 3) [nan; 2; nan; 2; 2; nan]%float).
Proof.
  split; [vm_compute; reflexivity|].
  split; [vm_compute; lia|vm_compute; reflexivity].
Qed.

(** ** The global parameter dictionary *)



(** ** The model location *)

Lemma model_location_short parValue ref np geod :
  length parValue < 2 →
  model_location np geod parValue ref
  = Raise (ValueError_unpack 2 (length parValue)).
Proof.
  intros Hlen. destruct ref as [ref_lon ref_lat].
  destruct parValue as [|x [|y l]]; [done|done|simpl in Hlen; lia].
Qed.




(** ** Metadata *)

(** The loop over the global parameters is a left-biased union. *)
Lemma update_from_union mDict meta :
  update_from mDict meta = (PyFloat <$> mDict) ∪ meta.
Proof.
  unfold update_from.
  apply (map_fold_weak_ind (λ r m, r = (PyFloat <$> m) ∪ meta)).
  - by rewrite fmap_empty, (left_id_L ∅ (∪)).
  - intros key value m r Hkey ->. by rewrite fmap_insert, insert_union_l.
Qed.

(** The program's sequence of assignments is the merge by precedence. *)
Lemma prepare_metadata_stages file_meta plot mDict :
  is_Some (file_meta !! "_fieldnames") →
  prepare_metadata file_meta plot mDict
  = Ok (merge_by_precedence file_meta plot mDict).
Proof.
  intros [x Hx]. unfold prepare_metadata, pop_fieldnames. rewrite Hx.
  cbn [mbind result_bind]. rewrite update_from_union.
  unfold merge_by_precedence, minHeight_tag, processing_tags.
  do 2 f_equal. rewrite <- !insert_union_l, <- insert_union_singleton_l.
  destruct (minHeight plot); [by rewrite <- insert_union_singleton_l|].
  by rewrite (left_id_L ∅ (∪)).
Qed.

(** C6. For every record whose file metadata has the loader's bookkeeping
    entry, the merge succeeds; its result is the merge by precedence of the
    file metadata, the fixed tags, the optional minimum height and the
    global parameters, a later stage overwriting an earlier one; and every
    key present in both the file metadata and the global parameter mapping
    is bound in it to the global parameter's value. *)
Theorem metadata_precedence file_meta plot mDict :
  is_Some (file_meta !! "_fieldnames") →
  ∃ meta, prepare_metadata file_meta plot mDict = Ok meta ∧
    meta = merge_by_precedence file_meta plot mDict ∧
    ∀ key v, is_Some (file_meta !! key) → mDict !! key = Some v →
      meta !! key = Some (PyFloat v).
Proof.
  intros Hfn. eexists. split; [by apply prepare_metadata_stages|].
  split; [done|].
  intros key v _ Hkey. apply lookup_union_Some_l. by rewrite lookup_fmap, Hkey.
Qed.

Lemma metadata_precedence_witness :
  ∃ meta,
    prepare_metadata (Metadata data_ex) (mk_insarPlot "T1_x" [] [] [] None)
      {["WIDTH" := 9%float]} = Ok meta ∧
    meta = merge_by_precedence (Metadata data_ex)
             (mk_insarPlot "T1_x" [] [] [] None) {["WIDTH" := 9%float]} ∧
    ∀ key v, is_Some (Metadata data_ex !! key) →
      ({["WIDTH" := 9%float]} : gmap string float) !! key = Some v →
      meta !! key = Some (PyFloat v).
Proof.
  apply (metadata_precedence (Metadata data_ex)). vm_compute. eauto.
Defined.

(** C7, as the code has it. For every record whose file metadata has the
    loader's bookkeeping entry, the merged mapping binds [UNIT] to ["m"],
    [FILE_TYPE] to ["displacement"] and [PROCESSOR] to ["isce"], each
    unless a global parameter has that key. *)
Theorem fixed_tags file_meta plot mDict :
  is_Some (file_meta !! "_fieldnames") →
  ∃ meta, prepare_metadata file_meta plot mDict = Ok meta ∧
    (mDict !! "UNIT" = None → meta !! "UNIT" = Some (PyStr "m")) ∧
    (mDict !! "FILE_TYPE" = None →
       meta !! "FILE_TYPE" = Some (PyStr "displacement")) ∧
    (mDict !! "PROCESSOR" = None →
       meta !! "PROCESSOR" = Some (PyStr "isce")).
Proof.
  intros Hfn. eexists. split; [by apply prepare_metadata_stages|].
  unfold merge_by_precedence, minHeight_tag, processing_tags.
  repeat split; intros Hkey;
    (rewrite lookup_union_r by (by rewrite lookup_fmap, Hkey));
    destruct (minHeight plot);
    rewrite ?(left_id_L ∅ (∪)), <- ?insert_union_singleton_l,
      <- ?insert_union_l, <- ?insert_union_singleton_l;
    by simplify_map_eq.
Qed.

Lemma fixed_tags_witness :
  ∃ meta,
    prepare_metadata (Metadata data_ex) (mk_insarPlot "T1_x" [] [] [] None)
      {["WIDTH" := 9%float]} = Ok meta ∧
    (({["WIDTH" := 9%float]} : gmap string float) !! "UNIT" = None →
       meta !! "UNIT" = Some (PyStr "m")) ∧
    (({["WIDTH" := 9%float]} : gmap string float) !! "FILE_TYPE" = None →
       meta !! "FILE_TYPE" = Some (PyStr "displacement")) ∧
    (({["WIDTH" := 9%float]} : gmap string float) !! "PROCESSOR" = None →
       meta !! "PROCESSOR" = Some (PyStr "isce")).
Proof.
  apply (fixed_tags (Metadata data_ex)). vm_compute. eauto.
Defined.

(** C7, as the claim states it, fails: the unit tag of both files written
    for the two-image example is ["m"], not ["meters"]. *)
Lemma unit_tag_is_m :
  length (insar mat_ex) = 2 ∧
  ∃ h1 h2, main np_ex geod_ex env_ex (mk_inps "inv.mat" None false)
       = ([h1; h2], Ok ["/r/T1_x.h5"; "/r/T2_y.h5"]) ∧
       h5_metadata h1 !! "UNIT" = Some (PyStr "m") ∧
       h5_metadata h2 !! "UNIT" = Some (PyStr "m") ∧
       h5_metadata h1 !! "UNIT" ≠ Some (PyStr "meters") ∧
       h5_metadata h2 !! "UNIT" ≠ Some (PyStr "meters").
Proof.
  split; [reflexivity|]. do 2 eexists.
  split_and!; try (vm_compute; reflexivity); vm_compute; discriminate.
Qed.

(** ** The driver *)

(** Case analysis on the steps of a computation that returned. *)
Ltac bind_ok H :=
  repeat match type of H with
  | mbind _ ?r = Ok _ =>
      destruct r eqn:?; cbn [mbind result_bind] in H; [|discriminate H]
  end.

Lemma getitem_Ok {A : Type} (l : list A) i x :
  getitem l i = Ok x → l !! i = Some x.
Proof. unfold getitem. destruct (l !! i); [|done]. by intros [= ->]. Qed.

Lemma struct_getitem_Ok {A : Type} (l : list A) i x :
  struct_getitem l i = Ok x → l !! i = Some x ∧ length l ≠ 1.
Proof.
  unfold struct_getitem. case_decide; [done|].
  intros Hx%getitem_Ok. done.
Qed.

Lemma py_len_Ok {A : Type} (l : list A) n :
  py_len l = Ok n → n = length l ∧ length l ≠ 1.
Proof. unfold py_len. case_decide; [done|]. by intros [= <-]. Qed.



(** ** Two runs *)

Lemma load_data_same env1 env2 data_file key :
  loadmat env1 data_file = loadmat env2 data_file →
  load_data env1 data_file key = load_data env2 data_file key.
Proof. unfold load_data. by intros ->. Qed.

(** A record is prepared alike in two environments that hold the same
    data files. *)
Lemma prepare_record_same env1 env2 mat mDict out_dir i :
  same_files env1 env2 (dataPath <$> insar mat) →
  prepare_record env1 mat mDict out_dir i
  = prepare_record env2 mat mDict out_dir i.
Proof.
  intros Hfiles. unfold prepare_record.
  destruct (struct_getitem (insar mat) i) as [rec|e] eqn:Hrec; [|done].
  cbn [mbind result_bind].
  assert (loadmat env1 (dataPath rec) = loadmat env2 (dataPath rec)) as Hl.
  { apply Hfiles, list_elem_of_fmap_2.
    apply struct_getitem_Ok in Hrec as [Hrec _].
    by eapply list_elem_of_lookup_2. }
  by rewrite !(load_data_same env1 env2 (dataPath rec)).
Qed.

Lemma record_loop_same env1 env2 mat mDict out_dir display num_file idx :
  same_files env1 env2 (dataPath <$> insar mat) →
  same_collaborators env1 env2 →
  ∀ out_files written,
  record_loop env1 mat mDict out_dir display num_file idx out_files written
  = record_loop env2 mat mDict out_dir display num_file idx out_files written.
Proof.
  intros Hfiles (Hwrite & _ & Hpanels & _).
  induction idx as [|i idx IH]; intros out_files written; [done|].
  cbn [record_loop]. rewrite (prepare_record_same env1 env2) by done.
  destruct (prepare_record env2 mat mDict out_dir i)
    as [[[plot [[gd gm] gr]] h]|e]; [|done].
  rewrite Hwrite. destruct (writefile_write env2 _ _ _); [|done].
  rewrite Hpanels. destruct (if display then _ else _); [|done].
  apply IH.
Qed.

(** X18. What a conversion reads: its outcome depends on the environment
    only through the content of the input file and of the data files that
    file names, and through the answers of the writer and of the plotting
    library. Two environments that agree on these give the same files
    written (names, grids and metadata, in order) and the same returned
    value or exception, whatever else they hold. *)
Theorem conversion_deterministic np geod env1 env2 mat_file display :
  same_files env1 env2 (files_read env1 mat_file) →
  same_collaborators env1 env2 →
  gbis_mat2hdf5 np geod env1 mat_file display
  = gbis_mat2hdf5 np geod env2 mat_file display.
Proof.
  intros Hfiles Hcol. unfold gbis_mat2hdf5.
  assert (loadmat env1 mat_file = loadmat env2 mat_file) as Hmat.
  { apply Hfiles. by left. }
  unfold same_files, files_read in Hfiles. rewrite <- Hmat.
  destruct (loadmat env1 mat_file) as [[mat|d]|e];
    cbn [mbind result_bind]; [|done..].
  destruct (py_len (insar mat)) as [n|e]; cbn [mbind result_bind]; [|done].
  destruct (global_mDict np geod mat) as [mDict|e]; [|done].
  cbn [mbind result_bind].
  pose proof Hcol as (_ & Hsub & _ & Hshow).
  replace (if display then plt_subplots env1 n else Ok ())
    with (if display then plt_subplots env2 n else Ok ())
    by (destruct display; [by rewrite Hsub|done]).
  destruct (if display then plt_subplots env2 _ else _); [|done].
  cbn [mbind result_bind].
  rewrite (record_loop_same env1 env2); [| |done].
  - destruct (record_loop env2 _ _ _ _ _ _ _ _) as [w [outs|e]]; [|done].
    destruct display; [by rewrite Hshow|done].
  - intros p Hp. apply Hfiles. by right.
Qed.

Lemma conversion_deterministic_witness :
  gbis_mat2hdf5 np_ex geod_ex env_ex "/r/inv.mat" true
  = gbis_mat2hdf5 np_ex geod_ex env_ex' "/r/inv.mat" true.
Proof.
  apply (conversion_deterministic np_ex geod_ex env_ex env_ex').
  - intros p Hp. vm_compute in Hp.
    repeat (apply elem_of_cons in Hp as [->|Hp]; [reflexivity|]).
    by apply elem_of_nil in Hp.
  - repeat split.
Defined.

(** ** The azimuth *)

(** Negating both operands does not change a quotient. *)
Lemma div_opp_opp x y : (- x / - y)%float = (x / y)%float.
Proof.
  apply Prim2SF_inj. rewrite !div_spec, !opp_spec. unfold SF64div.
  destruct (Prim2SF x) as [sx|sx| |sx mx ex],
           (Prim2SF y) as [sy|sy| |sy my ey];
    cbn [SFopp SFdiv]; rewrite ?xorb_negb_negb; reflexivity.
Qed.

Lemma azimuth_opp_opp np mX mY :
  azimuth np (- mX) (- mY) = azimuth np mX mY.
Proof. unfold azimuth. by rewrite div_opp_opp. Qed.

Lemma model_location_eq np geod mX mY rest ref :
  model_location np geod (mX :: mY :: rest) ref
  = Ok (let '(mLon, mLat, _) :=
          fwd geod ref.1 ref.2 (azimuth np mX mY) (distance np mX mY) in
        (mLon, mLat)).
Proof.
  destruct ref as [ref_lon ref_lat]. unfold model_location.
  simpl. by destruct (fwd geod _ _ _ _) as [[mLon mLat] back].
Qed.

(** C1 fails on the code. What the model location hands to the forward
    geodesic is the distance [(mX**2 + mY**2)**0.5] and, as the azimuth,
    the one-argument arc tangent of the quotient [mX/mY] in degrees. That
    azimuth is the same for a direction and for its opposite: for the
    south-west offset (-1000, -1000) it is that of the north-east offset
    (1000, 1000), where a two-argument arc tangent gives azimuths 180
    degrees apart. *)
Theorem model_location_one_argument_arctan np geod mX mY rest ref :
  model_location np geod (mX :: mY :: rest) ref
  = Ok (let '(mLon, mLat, _) :=
          fwd geod ref.1 ref.2
            (arctan np (mX / mY) * 180 / np_pi)%float
            (power np (power np mX 2 + power np mY 2)%float 0.5%float) in
        (mLon, mLat)) ∧
  azimuth np (- mX) (- mY) = azimuth np mX mY ∧
  azimuth np (-1000) (-1000) = azimuth np 1000 1000.
Proof.
  split; [apply model_location_eq|].
  split; [apply azimuth_opp_opp|apply (azimuth_opp_opp np 1000 1000)].
Qed.

(** *** A zero second value *)

Lemma eqb_zero_Prim2SF y :
  (y =? 0)%float = true → ∃ s, Prim2SF y = S754_zero s.
Proof.
  rewrite FloatAxioms.eqb_spec. change (Prim2SF 0) with (S754_zero false).
  destruct (Prim2SF y) as [s|s| |s m e];
    [by eauto|by destruct s|done|by destruct s].
Qed.

Lemma SFeqb_finite_refl s m e :
  SFeqb (S754_finite s m e) (S754_finite s m e) = true.
Proof.
  unfold SFeqb, SFcompare.
  destruct s; by rewrite Z.compare_refl, Pos.compare_cont_refl.
Qed.

(** The quotient by a zero: an infinity when the dividend is neither zero
    nor NaN, and NaN when it is. *)
Lemma div_by_zero x y :
  (y =? 0)%float = true →
  ((x =? 0)%float = false → is_nan x = false →
     (x / y)%float = infinity ∨ (x / y)%float = neg_infinity) ∧
  ((x =? 0)%float = true ∨ is_nan x = true → (x / y)%float = nan).
Proof.
  intros [s Hy]%eqb_zero_Prim2SF. unfold is_nan.
  rewrite <- (SF2Prim_Prim2SF (x / y)), div_spec, Hy, !FloatAxioms.eqb_spec.
  change (Prim2SF 0) with (S754_zero false). unfold SF64div.
  destruct (Prim2SF x) as [sx|sx| |sx mx ex]; cbn [SFdiv].
  - split; [done|]. by intros _.
  - split.
    + intros _ _. destruct sx, s; by eauto.
    + intros [H|H]; by destruct sx.
  - split; [done|]. by intros _.
  - split.
    + intros _ _. destruct sx, s; by eauto.
    + intros [H|H]; [by destruct sx|]. by rewrite SFeqb_finite_refl in H.
Qed.

Lemma azimuth_of_infinite_quotient np mX mY :
  (mX / mY)%float = infinity ∨ (mX / mY)%float = neg_infinity →
  azimuth np mX mY = 90%float ∨ azimuth np mX mY = (-90)%float.
Proof.
  unfold azimuth. intros [-> | ->].
  - left. by rewrite arctan_pinf.
  - right. by rewrite arctan_ninf.
Qed.

(** C10, as the code has it. For every input whose second optimal-model
    value is zero, the quotient [mX/mY] is not finite and nothing raises:
    the model location is returned, computed from the azimuth; that azimuth
    is 90 or -90 degrees when the first value is neither zero nor NaN, and
    NaN when it is. *)
Theorem azimuth_at_zero_mY np geod mX mY rest ref :
  (mY =? 0)%float = true →
  is_finite (mX / mY) = false ∧
  ((mX =? 0)%float = false → is_nan mX = false →
     azimuth np mX mY = 90%float ∨ azimuth np mX mY = (-90)%float) ∧
  ((mX =? 0)%float = true ∨ is_nan mX = true → azimuth np mX mY = nan) ∧
  model_location np geod (mX :: mY :: rest) ref
  = Ok (let '(mLon, mLat, _) :=
          fwd geod ref.1 ref.2 (azimuth np mX mY) (distance np mX mY) in
        (mLon, mLat)).
Proof.
  intros HmY. destruct (div_by_zero mX mY HmY) as [Hinf Hnan].
  split; [|split; [|split]].
  - destruct (mX =? 0)%float eqn:H0; [by rewrite Hnan by eauto|].
    destruct (is_nan mX) eqn:Hn; [by rewrite Hnan by eauto|].
    by destruct Hinf as [-> | ->].
  - intros H0 Hn. by apply azimuth_of_infinite_quotient, Hinf.
  - intros H. unfold azimuth. by rewrite Hnan, arctan_nan.
  - apply model_location_eq.
Qed.

Lemma azimuth_at_zero_mY_witness :
  is_finite (1 / 0) = false ∧
  ((1 =? 0)%float = false → is_nan 1 = false →
     azimuth np_ex 1 0 = 90%float ∨ azimuth np_ex 1 0 = (-90)%float) ∧
  ((1 =? 0)%float = true ∨ is_nan 1 = true → azimuth np_ex 1 0 = nan) ∧
  model_location np_ex geod_ex [1; 0]%float (10, 20)%float
  = Ok (let '(mLon, mLat, _) :=
          fwd geod_ex (10, 20)%float.1 (10, 20)%float.2
            (azimuth np_ex 1 0) (distance np_ex 1 0) in
        (mLon, mLat)).
Proof.
  apply (azimuth_at_zero_mY np_ex geod_ex 1 0 [] (10, 20)%float).
  reflexivity.
Defined.

(** C10, as the claim states it, fails: with a second value of zero and a
    first value of one, the azimuth is 90 degrees, which is finite, for
    every arc tangent that is pi/2 at infinity; and the global dictionary
    of the example gets its two location keys. *)
Lemma azimuth_due_east_is_finite :
  (∀ np, azimuth np 1 0 = 90%float) ∧
  is_finite 90 = true ∧
  optimalmodel mat_east = [1; 0]%float ∧
  ∃ mDict, global_mDict np_ex geod_ex mat_east = Ok mDict ∧
    mDict !! "FAUL_longitude" = Some 100%float ∧
    mDict !! "FAUL_latitude" = Some 21%float.
Proof.
  split; [|split; [reflexivity|split; [reflexivity|]]].
  - intros np. unfold azimuth.
    change (1 / 0)%float with infinity. by rewrite arctan_pinf.
  - eexists. split; [vm_compute; reflexivity|].
    split; vm_compute; reflexivity.
Qed.

(** * Further properties of the conversion *)

(** ** What is written, and when *)

(** Whatever the outcome of the loop, the files it has added are those of
    the records at the first of its indices, each as [prepare_record]
    builds it. *)
Lemma record_loop_written env mat mDict out_dir display num_file idx :
  ∀ out_files written written' res,
  record_loop env mat mDict out_dir display num_file idx out_files written
  = (written', res) →
  ∃ new, written' = written ++ new ∧ length new ≤ length idx ∧
    ∀ k h, new !! k = Some h →
      ∃ i plot gs, idx !! k = Some i ∧
        prepare_record env mat mDict out_dir i = Ok (plot, gs, h) ∧
        writefile_write env (h5_dsDict h) (h5_out_file h) (h5_metadata h)
        = Ok ().
Proof.
  induction idx as [|i idx IH]; intros out_files written written' res H.
  - inversion H; subst. exists []. rewrite app_nil_r. by split_and!.
  - cbn [record_loop] in H.
    assert (∀ e, (written, Raise e) = (written', res) →
      ∃ new : list h5_t, written' = written ++ new ∧
        length new ≤ length (i :: idx) ∧
        ∀ k h, new !! k = Some h →
          ∃ i0 plot gs, (i :: idx) !! k = Some i0 ∧
            prepare_record env mat mDict out_dir i0 = Ok (plot, gs, h) ∧
            writefile_write env (h5_dsDict h) (h5_out_file h) (h5_metadata h)
            = Ok ()) as Hstop.
    { intros e [= <- <-]. exists []. rewrite app_nil_r.
      split_and!; [done|simpl; lia|done]. }
    destruct (prepare_record env mat mDict out_dir i)
      as [[[plot [[gd gm] gr]] h]|e] eqn:Hprep; [|by eapply Hstop].
    destruct (writefile_write env _ _ _) as [[]|e] eqn:Hw; [|by eapply Hstop].
    assert (∀ new, written' = (written ++ [h]) ++ new →
      length new ≤ length idx →
      (∀ k h', new !! k = Some h' →
         ∃ i0 plot gs, idx !! k = Some i0 ∧
           prepare_record env mat mDict out_dir i0 = Ok (plot, gs, h') ∧
           writefile_write env (h5_dsDict h') (h5_out_file h')
             (h5_metadata h') = Ok ()) →
      ∃ new' : list h5_t, written' = written ++ new' ∧
        length new' ≤ length (i :: idx) ∧
        ∀ k h', new' !! k = Some h' →
          ∃ i0 plot gs, (i :: idx) !! k = Some i0 ∧
            prepare_record env mat mDict out_dir i0 = Ok (plot, gs, h') ∧
            writefile_write env (h5_dsDict h') (h5_out_file h')
              (h5_metadata h') = Ok ()) as Hgo.
    { intros new -> Hlen Hnew. exists (h :: new).
      split; [by rewrite <- app_assoc|]. split; [simpl; lia|].
      intros [|k] h' Hk; simpl in Hk.
      - inversion Hk; subst. by exists i, plot, (gd, gm, gr).
      - by apply Hnew. }
    destruct (if display then _ else _) as [[]|e].
    + apply IH in H as (new & -> & Hlen & Hnew). by eapply Hgo.
    + inversion H; subst. apply (Hgo []); [by rewrite app_nil_r|simpl; lia|done].
Qed.


(** X1. Whatever the outcome of a conversion (a returned list or an
    exception), the files it has written are those of the first records,
    in order and without gaps: there are at most as many as records, and
    the [k]-th of them is the file of record [k], built from the global
    parameter dictionary and accepted by the writer. *)
Theorem written_files_are_the_first_records
    np geod env mat_file display mat written res :
  loadmat env mat_file = Ok (InversionFile mat) →
  gbis_mat2hdf5 np geod env mat_file display = (written, res) →
  length written ≤ length (insar mat) ∧
  ∀ k h, written !! k = Some h →
    ∃ mDict plot gs,
      global_mDict np geod mat = Ok mDict ∧
      prepare_record env mat mDict (dirname mat_file) k = Ok (plot, gs, h) ∧
      writefile_write env (h5_dsDict h) (h5_out_file h) (h5_metadata h)
      = Ok ().
Proof.
  intros Hload H. unfold gbis_mat2hdf5 in H. rewrite Hload in H.
  cbn [mbind result_bind] in H.
  destruct (py_len (insar mat)) as [n|e] eqn:Hn;
    cbn [mbind result_bind] in H;
    [apply py_len_Ok in Hn as [-> _]
    |inversion H; subst; split; [simpl; lia|done]].
  destruct (global_mDict np geod mat) as [mDict|e];
    cbn [mbind result_bind] in H;
    [|inversion H; subst; split; [simpl; lia|done]].
  destruct (if display then plt_subplots env _ else _);
    cbn [mbind result_bind] in H;
    [|inversion H; subst; split; [simpl; lia|done]].
  destruct (record_loop _ _ _ _ _ _ _ _ _) as [w r] eqn:Hloop.
  apply record_loop_written in Hloop as (new & -> & Hlen & Hnew).
  rewrite length_seq in Hlen. rewrite app_nil_l in H.
  assert (written = new) as ->.
  { destruct r; [destruct (if display then plt_show env _ else _)|];
      by inversion H. }
  split; [done|]. intros k h Hk.
  destruct (Hnew k h Hk) as (i & plot & gs & Hi & Hprep & Hw).
  apply lookup_seq in Hi as [-> _]. by exists mDict, plot, gs.
Qed.

Lemma written_files_are_the_first_records_witness :
  ∃ written res,
    gbis_mat2hdf5 np_ex geod_ex env_ex "/r/inv.mat" true = (written, res) ∧
    length written ≤ length (insar mat_ex) ∧
    ∀ k h, written !! k = Some h →
      ∃ mDict plot gs,
        global_mDict np_ex geod_ex mat_ex = Ok mDict ∧
        prepare_record env_ex mat_ex mDict (dirname "/r/inv.mat") k
        = Ok (plot, gs, h) ∧
        writefile_write env_ex (h5_dsDict h) (h5_out_file h) (h5_metadata h)
        = Ok ().
Proof.
  eexists. eexists. split; [vm_compute; reflexivity|].
  eapply (written_files_are_the_first_records np_ex geod_ex env_ex
            "/r/inv.mat" true mat_ex); vm_compute; reflexivity.
Defined.

(** ** The display flag *)

(** Without display the loop consults only the files and the writer. *)
Lemma record_loop_no_display env1 env2 mat mDict out_dir n1 n2 idx :
  same_files env1 env2 (dataPath <$> insar mat) →
  (∀ ds f m, writefile_write env1 ds f m = writefile_write env2 ds f m) →
  ∀ out_files written,
  record_loop env1 mat mDict out_dir false n1 idx out_files written
  = record_loop env2 mat mDict out_dir false n2 idx out_files written.
Proof.
  intros Hfiles Hwrite.
  induction idx as [|i idx IH]; intros out_files written; [done|].
  cbn [record_loop]. rewrite (prepare_record_same env1 env2) by done.
  destruct (prepare_record env2 mat mDict out_dir i)
    as [[[plot [[gd gm] gr]] h]|e]; [|done].
  rewrite Hwrite. destruct (writefile_write env2 _ _ _); [|done]. apply IH.
Qed.

(** X2. With display disabled the plotting library plays no part: two
    runs in environments that hold the same files and whose writers answer
    alike, however their plotting libraries behave, write the same files
    and end alike. *)
Theorem no_display_ignores_plotting np geod env1 env2 mat_file :
  same_files env1 env2 (files_read env1 mat_file) →
  (∀ ds f m, writefile_write env1 ds f m = writefile_write env2 ds f m) →
  gbis_mat2hdf5 np geod env1 mat_file false
  = gbis_mat2hdf5 np geod env2 mat_file false.
Proof.
  intros Hfiles Hwrite. unfold gbis_mat2hdf5.
  assert (loadmat env1 mat_file = loadmat env2 mat_file) as Hmat.
  { apply Hfiles. by left. }
  unfold same_files, files_read in Hfiles. rewrite <- Hmat.
  destruct (loadmat env1 mat_file) as [[mat|d]|e];
    cbn [mbind result_bind]; [|done..].
  destruct (py_len (insar mat)) as [n|e]; cbn [mbind result_bind]; [|done].
  destruct (global_mDict np geod mat) as [mDict|e]; [|done].
  cbn [mbind result_bind].
  rewrite (record_loop_no_display env1 env2 mat mDict _ _ n); [done| |done].
  intros p Hp. apply Hfiles. by right.
Qed.

Lemma no_display_ignores_plotting_witness :
  gbis_mat2hdf5 np_ex geod_ex env_ex "/r/inv.mat" false
  = gbis_mat2hdf5 np_ex geod_ex
      (mk_Env loadmat_ex id (λ _ _ _, Ok ())
         (λ _, Raise IndexError) (λ _ _ _ _ _ _, Raise IndexError)
         (λ _, Raise IndexError))
      "/r/inv.mat" false.
Proof.
  apply (no_display_ignores_plotting np_ex geod_ex env_ex); [|done].
  intros p Hp. reflexivity.
Defined.

(** ** The datasets of a record *)

(** X4. The file prepared for a record holds exactly the three datasets
    [data], [model] and [residual], the grids reconstructed from the
    record's three sequences over the mask of its data file; the three
    have the shape of that mask and one cell per index. *)
Theorem prepared_datasets env mat mDict out_dir i plot g_data g_model
    g_residual h :
  prepare_record env mat mDict out_dir i
  = Ok (plot, (g_data, g_model, g_residual), h) →
  ∃ rec d,
    insar mat !! i = Some rec ∧
    loadmat env (dataPath rec) = Ok (DataFile d) ∧
    reconstruct (Mask d) (data plot) = Ok g_data ∧
    reconstruct (Mask d) (model plot) = Ok g_model ∧
    reconstruct (Mask d) (residual plot) = Ok g_residual ∧
    (∀ ds, h5_dsDict h !! ds
           = if decide (ds = "data") then Some g_data
             else if decide (ds = "model") then Some g_model
             else if decide (ds = "residual") then Some g_residual
             else None) ∧
    shape g_data = shape (Mask d) ∧ shape g_model = shape (Mask d) ∧
    shape g_residual = shape (Mask d) ∧
    (wf_ndarray (Mask d) →
       wf_ndarray g_data ∧ wf_ndarray g_model ∧ wf_ndarray g_residual).
Proof.
  unfold prepare_record. intros H. bind_ok H. inversion H; subst.
  match goal with Hg : struct_getitem (insar mat) i = Ok ?r |- _ =>
    apply struct_getitem_Ok in Hg as [Hg _]; exists r end.
  match goal with Hl : load_data env _ "Mask" = Ok ?d |- ∃ _, _ =>
    exists d; unfold load_data in Hl;
    destruct (loadmat env _) as [[m|d0]|e] eqn:Hload;
    cbn [mbind result_bind] in Hl; inversion Hl; subst end.
  repeat match goal with Hr : reconstruct _ _ = Ok _ |- _ =>
    pose proof (reconstruct_shape _ _ _ Hr) as [? ?]; revert Hr end.
  intros. split_and!; try done.
  - intros ds. cbn [h5_dsDict]. repeat case_decide; by simplify_map_eq.
  - intros Hwf. unfold wf_ndarray in *. split_and!; congruence.
Qed.

Lemma prepared_datasets_witness :
  ∃ plot g_data g_model g_residual h,
    prepare_record env_ex mat_ex ∅ "/r" 0
    = Ok (plot, (g_data, g_model, g_residual), h) ∧
    ∃ rec d,
      insar mat_ex !! 0 = Some rec ∧
      loadmat env_ex (dataPath rec) = Ok (DataFile d) ∧
      reconstruct (Mask d) (data plot) = Ok g_data ∧
      reconstruct (Mask d) (model plot) = Ok g_model ∧
      reconstruct (Mask d) (residual plot) = Ok g_residual ∧
      (∀ ds, h5_dsDict h !! ds
             = if decide (ds = "data") then Some g_data
               else if decide (ds = "model") then Some g_model
               else if decide (ds = "residual") then Some g_residual
               else None) ∧
      shape g_data = shape (Mask d) ∧ shape g_model = shape (Mask d) ∧
      shape g_residual = shape (Mask d) ∧
      (wf_ndarray (Mask d) →
         wf_ndarray g_data ∧ wf_ndarray g_model ∧ wf_ndarray g_residual).
Proof.
  do 5 eexists. split; [vm_compute; reflexivity|].
  eapply (prepared_datasets env_ex mat_ex ∅ "/r" 0).
  vm_compute. reflexivity.
Defined.

(** ** The metadata of a record *)

(** X5. The merge raises exactly when the file metadata lacks the
    loader's bookkeeping entry ['_fieldnames'], and what it raises is the
    [KeyError] of that key. *)
Theorem prepare_metadata_raises_iff file_meta plot mDict e :
  prepare_metadata file_meta plot mDict = Raise e ↔
  file_meta !! "_fieldnames" = None ∧ e = KeyError "_fieldnames".
Proof.
  unfold prepare_metadata, pop_fieldnames.
  destruct (file_meta !! "_fieldnames"); cbn [mbind result_bind].
  - split; [done|]. by intros [? _].
  - split; [by intros [= <-]|]. by intros [_ ->].
Qed.

Lemma lookup_merge_by_precedence file_meta plot mDict key :
  mDict !! key = None →
  merge_by_precedence file_meta plot mDict !! key
  = (minHeight_tag plot ∪ (processing_tags ∪ delete "_fieldnames" file_meta))
      !! key.
Proof.
  intros Hkey. unfold merge_by_precedence.
  apply lookup_union_r. by rewrite lookup_fmap, Hkey.
Qed.

Lemma prepare_metadata_Ok file_meta plot mDict meta :
  prepare_metadata file_meta plot mDict = Ok meta →
  meta = merge_by_precedence file_meta plot mDict.
Proof.
  intros H. destruct (file_meta !! "_fieldnames") eqn:Hfn.
  - rewrite prepare_metadata_stages in H by eauto. by inversion H.
  - unfold prepare_metadata, pop_fieldnames in H. by rewrite Hfn in H.
Qed.

Lemma lookup_minHeight_tag plot key :
  minHeight_tag plot !! key
  = if decide (key = "MODEL_MIN_HEIGHT") then PyFloat <$> minHeight plot
    else None.
Proof.
  unfold minHeight_tag. destruct (minHeight plot); case_decide; by simplify_map_eq.
Qed.

(** X6. The bookkeeping entry never reaches the output: in the merged
    metadata the key ['_fieldnames'] is bound only if a global parameter
    has that key. *)
Theorem fieldnames_removed file_meta plot mDict meta :
  prepare_metadata file_meta plot mDict = Ok meta →
  mDict !! "_fieldnames" = None →
  meta !! "_fieldnames" = None.
Proof.
  intros ->%prepare_metadata_Ok Hkey.
  rewrite lookup_merge_by_precedence by done.
  rewrite !lookup_union, lookup_minHeight_tag, lookup_delete_eq.
  unfold processing_tags. by simplify_map_eq.
Qed.

Lemma fieldnames_removed_witness :
  ∃ meta,
    prepare_metadata (Metadata data_ex) (mk_insarPlot "T1_x" [] [] [] None)
      {["WIDTH" := 9%float]} = Ok meta ∧
    meta !! "_fieldnames" = None.
Proof.
  eexists. split; [vm_compute; reflexivity|].
  eapply (fieldnames_removed (Metadata data_ex)
            (mk_insarPlot "T1_x" [] [] [] None) {["WIDTH" := 9%float]});
    vm_compute; reflexivity.
Defined.

(** X7. The minimum-height tag: when no global parameter has the key
    [MODEL_MIN_HEIGHT], the merged metadata binds it to the record's
    [minHeight] if the record has one, and otherwise leaves it as the file
    metadata has it. *)
Theorem model_min_height file_meta plot mDict meta :
  prepare_metadata file_meta plot mDict = Ok meta →
  mDict !! "MODEL_MIN_HEIGHT" = None →
  meta !! "MODEL_MIN_HEIGHT"
  = match minHeight plot with
    | Some h => Some (PyFloat h)
    | None => file_meta !! "MODEL_MIN_HEIGHT"
    end.
Proof.
  intros ->%prepare_metadata_Ok Hkey.
  rewrite lookup_merge_by_precedence by done.
  rewrite !lookup_union, lookup_minHeight_tag.
  destruct (minHeight plot); unfold processing_tags; simplify_map_eq;
    by destruct (file_meta !! "MODEL_MIN_HEIGHT").
Qed.

Lemma model_min_height_witness :
  ∃ meta,
    prepare_metadata (Metadata data_ex)
      (mk_insarPlot "T1_x" [] [] [] (Some 2%float))
      {["WIDTH" := 9%float]} = Ok meta ∧
    meta !! "MODEL_MIN_HEIGHT" = Some (PyFloat 2).
Proof.
  eexists. split; [vm_compute; reflexivity|].
  eapply (model_min_height (Metadata data_ex)
            (mk_insarPlot "T1_x" [] [] [] (Some 2%float))
            {["WIDTH" := 9%float]}); vm_compute; reflexivity.
Defined.

(** X8. The entries of the file metadata pass through: a key that is
    none of ['_fieldnames'], [UNIT], [FILE_TYPE], [PROCESSOR],
    [MODEL_MIN_HEIGHT] and is not the key of a global parameter is bound in
    the merged metadata exactly as in the file metadata. *)
Theorem file_metadata_passes_through file_meta plot mDict meta key :
  prepare_metadata file_meta plot mDict = Ok meta →
  key ∉ ["_fieldnames"; "UNIT"; "FILE_TYPE"; "PROCESSOR"; "MODEL_MIN_HEIGHT"] →
  mDict !! key = None →
  meta !! key = file_meta !! key.
Proof.
  intros ->%prepare_metadata_Ok Hnot Hkey.
  rewrite lookup_merge_by_precedence by done.
  rewrite !lookup_union, lookup_minHeight_tag.
  rewrite !not_elem_of_cons in Hnot.
  destruct Hnot as (? & ? & ? & ? & ? & _).
  rewrite decide_False by done. unfold processing_tags.
  rewrite !lookup_insert_ne, lookup_singleton_ne, lookup_delete_ne by done.
  by destruct (file_meta !! key).
Qed.

Lemma file_metadata_passes_through_witness :
  ∃ meta,
    prepare_metadata (Metadata data_ex) (mk_insarPlot "T1_x" [] [] [] None)
      ∅ = Ok meta ∧
    meta !! "WIDTH" = Metadata data_ex !! "WIDTH".
Proof.
  eexists. split; [vm_compute; reflexivity|].
  eapply (file_metadata_passes_through (Metadata data_ex)
            (mk_insarPlot "T1_x" [] [] [] None) ∅);
    [vm_compute; reflexivity| |vm_compute; reflexivity].
  rewrite !not_elem_of_cons. split_and!; try done. apply not_elem_of_nil.
Defined.

(** ** The keys of the global parameter dictionary *)



(** The keys of the dictionary the loop returns are those it started with
    and the keys of the names it has read. *)
Lemma mDict_loop_keys vals : ∀ i names m0 m,
  mDict_loop i vals names m0 = Ok m →
  ∀ key, is_Some (m !! key) ↔
    is_Some (m0 !! key) ∨
    ∃ j nm, j < length vals ∧ names !! (i + j) = Some nm ∧
            key = replace_space nm.
Proof.
  induction vals as [|v vals IH]; intros i names m0 m H key.
  - inversion H; subst. split; [by left|]. intros [?|(j & nm & Hj & _)]; [done|].
    simpl in Hj. lia.
  - cbn [mDict_loop] in H. bind_ok H.
    match goal with Hg : getitem names i = Ok ?s |- _ =>
      apply getitem_Ok in Hg; rename Hg into Hnm; rename s into nm0 end.
    rewrite (IH _ _ _ _ H). split.
    + intros [Hin|(j & nm & Hj & Hnmj & ->)].
      * destruct (decide (replace_space nm0 = key)) as [<-|Hne].
        -- right. exists 0, nm0. rewrite Nat.add_0_r. simpl. split_and!; [lia|done..].
        -- left. by rewrite lookup_insert_ne in Hin.
      * right. exists (S j), nm. simpl.
        replace (i + S j) with (S i + j) by lia. split_and!; [lia|done..].
    + intros [Hin|(j & nm & Hj & Hnmj & ->)].
      * left. destruct (decide (replace_space nm0 = key)) as [<-|Hne];
          [by rewrite lookup_insert_eq|by rewrite lookup_insert_ne].
      * destruct j as [|j].
        -- left. rewrite Nat.add_0_r in Hnmj. simplify_eq.
           by rewrite lookup_insert_eq.
        -- right. exists j, nm. simpl in Hj.
           replace (S i + j) with (i + S j) by lia. split_and!; [lia|done..].
Qed.

(** X10. The parameter dictionary has a key for every value and no
    other: its keys are exactly the names of the values, spaces replaced by
    underscores; names beyond the last value give no key. *)
Theorem mDict_keys vals names mDict :
  mDict_loop 0 vals names ∅ = Ok mDict →
  ∀ key, is_Some (mDict !! key) ↔
    ∃ i nm, i < length vals ∧ names !! i = Some nm ∧ key = replace_space nm.
Proof.
  intros H key. rewrite (mDict_loop_keys _ _ _ _ _ H key).
  rewrite lookup_empty. split; [|by right].
  intros [[? [=]]|?]. done.
Qed.

Lemma mDict_keys_witness :
  ∃ mDict,
    mDict_loop 0 [3; 4]%float ["FAUL X"; "FAUL Y"; "FAUL Z"] ∅ = Ok mDict ∧
    ∀ key, is_Some (mDict !! key) ↔
      ∃ i nm, i < length [3; 4]%float ∧
        ["FAUL X"; "FAUL Y"; "FAUL Z"] !! i = Some nm ∧
        key = replace_space nm.
Proof.
  eexists. split; [vm_compute; reflexivity|].
  eapply (mDict_keys [3; 4]%float ["FAUL X"; "FAUL Y"; "FAUL Z"]).
  vm_compute. reflexivity.
Defined.

(** ** The derived location keys *)

Lemma latitude_key_ne_longitude_key s :
  s +:+ "_latitude" ≠ s +:+ "_longitude".
Proof. induction s as [|c s IH]; [done|]. simpl. by intros [= ?]. Qed.

(** What a global dictionary that was built is made of. *)
Lemma global_mDict_Ok_inv np geod mat mDict :
  global_mDict np geod mat = Ok mDict →
  ∃ pars nm modelName mLon mLat,
    mDict_loop 0 (optimalmodel mat) (names_view (parName mat)) ∅ = Ok pars ∧
    2 ≤ length (optimalmodel mat) ∧
    model_location np geod (optimalmodel mat) (referencePoint mat)
    = Ok (mLon, mLat) ∧
    names_view (parName mat) !! 0 = Some nm ∧
    str_split nm !! 0 = Some modelName ∧
    mDict = <[modelName +:+ "_longitude" := mLon]>
              (<[modelName +:+ "_latitude" := mLat]> pars).
Proof.
  unfold global_mDict. intros H. bind_ok H.
  repeat match goal with a : (_ * _)%type |- _ => destruct a end.
  cbn beta iota in H. bind_ok H.
  repeat match goal with
  | Hg : getitem _ _ = Ok _ |- _ => apply getitem_Ok in Hg
  end.
  inversion H; subst. do 5 eexists. split_and!; try done.
  destruct (decide (2 ≤ length (optimalmodel mat))); [done|].
  match goal with Hm : model_location _ _ _ _ = Ok _ |- _ =>
    rewrite model_location_short in Hm by lia; discriminate Hm end.
Qed.

(** X11. When the global dictionary is built, the inversion result has at
    least two values and a first name (as the program sees the names) with
    a first token; the dictionary binds that token followed by [_latitude]
    and by [_longitude] to the latitude and the longitude of the model
    location, and every other key as the parameter dictionary does: a
    parameter whose key is one of the two is overwritten. *)
Theorem derived_location_keys np geod mat mDict :
  global_mDict np geod mat = Ok mDict →
  ∃ pars nm modelName mLon mLat,
    mDict_loop 0 (optimalmodel mat) (names_view (parName mat)) ∅ = Ok pars ∧
    2 ≤ length (optimalmodel mat) ∧
    model_location np geod (optimalmodel mat) (referencePoint mat)
    = Ok (mLon, mLat) ∧
    names_view (parName mat) !! 0 = Some nm ∧
    str_split nm !! 0 = Some modelName ∧
    mDict !! (modelName +:+ "_latitude") = Some mLat ∧
    mDict !! (modelName +:+ "_longitude") = Some mLon ∧
    ∀ key, key ≠ modelName +:+ "_latitude" →
           key ≠ modelName +:+ "_longitude" →
           mDict !! key = pars !! key.
Proof.
  intros (pars & nm & tok & mLon & mLat & ? & ? & ? & ? & ? & ->)
    %global_mDict_Ok_inv.
  exists pars, nm, tok, mLon, mLat. split_and!; try done.
  - rewrite lookup_insert_ne by (symmetry; apply latitude_key_ne_longitude_key).
    by rewrite lookup_insert_eq.
  - by rewrite lookup_insert_eq.
  - intros key ? ?. by rewrite !lookup_insert_ne.
Qed.

Lemma derived_location_keys_witness :
  ∃ mDict,
    global_mDict np_ex geod_ex mat_ex = Ok mDict ∧
    ∃ pars nm modelName mLon mLat,
      mDict_loop 0 (optimalmodel mat_ex) (names_view (parName mat_ex)) ∅
      = Ok pars ∧
      2 ≤ length (optimalmodel mat_ex) ∧
      model_location np_ex geod_ex (optimalmodel mat_ex)
        (referencePoint mat_ex) = Ok (mLon, mLat) ∧
      names_view (parName mat_ex) !! 0 = Some nm ∧
      str_split nm !! 0 = Some modelName ∧
      mDict !! (modelName +:+ "_latitude") = Some mLat ∧
      mDict !! (modelName +:+ "_longitude") = Some mLon ∧
      ∀ key, key ≠ modelName +:+ "_latitude" →
             key ≠ modelName +:+ "_longitude" →
             mDict !! key = pars !! key.
Proof.
  eexists. split; [vm_compute; reflexivity|].
  apply (derived_location_keys np_ex geod_ex mat_ex). vm_compute. reflexivity.
Defined.

(** ** Parameter names that become the same key *)





(** ** Strings *)

Lemma chars_app a b :
  list_ascii_of_string (a +:+ b)
  = list_ascii_of_string a ++ list_ascii_of_string b.
Proof. induction a as [|c a IH]; [done|]. simpl. by rewrite IH. Qed.

Lemma chars_inj a b :
  list_ascii_of_string a = list_ascii_of_string b → a = b.
Proof.
  intros H. rewrite <- (string_of_list_ascii_of_string a),
    <- (string_of_list_ascii_of_string b). by rewrite H.
Qed.

Lemma append_assoc a b c : (a +:+ b) +:+ c = a +:+ b +:+ c.
Proof. apply chars_inj. by rewrite !chars_app, app_assoc. Qed.

Lemma append_nil_r a : a +:+ "" = a.
Proof. apply chars_inj. by rewrite chars_app, app_nil_r. Qed.


Lemma replace_space_fixed s :
  " "%char ∉ list_ascii_of_string s → replace_space s = s.
Proof.
  induction s as [|c s IH]; [done|]. simpl. rewrite not_elem_of_cons.
  intros [Hc Hs]. rewrite IH by done.
  destruct (Ascii.eqb_spec c " "); [by subst|done].
Qed.

Lemma replace_space_no_space s :
  " "%char ∉ list_ascii_of_string (replace_space s).
Proof.
  induction s as [|c s IH]; [apply not_elem_of_nil|]. simpl.
  rewrite not_elem_of_cons. split; [|done].
  destruct (Ascii.eqb_spec c " "); [done|congruence].
Qed.

(** X12. Replacing the spaces of a name gives a key of the same length
    without any space, character for character (it distributes over
    concatenation); a name without space is its own key, and replacing
    twice is replacing once. *)
Theorem replace_space_properties s t :
  (" "%char ∉ list_ascii_of_string (replace_space s)) ∧
  String.length (replace_space s) = String.length s ∧
  replace_space (s +:+ t) = replace_space s +:+ replace_space t ∧
  (" "%char ∉ list_ascii_of_string s ↔ replace_space s = s) ∧
  replace_space (replace_space s) = replace_space s.
Proof.
  split_and!.
  - apply replace_space_no_space.
  - induction s as [|c s IH]; [done|]. simpl. by rewrite IH.
  - induction s as [|c s IH]; [done|]. simpl. by rewrite IH.
  - split; [apply replace_space_fixed|].
    intros <-. apply replace_space_no_space.
  - apply replace_space_fixed, replace_space_no_space.
Qed.

(** The tokens of [split_from]: none is empty and none holds white space,
    when the token being read holds none. *)
Lemma split_from_tokens s : ∀ tok,
  Forall (λ c, isspace c = false) (list_ascii_of_string tok) →
  Forall (λ t, t ≠ "" ∧
               Forall (λ c, isspace c = false) (list_ascii_of_string t))
         (split_from tok s).
Proof.
  induction s as [|c s IH]; intros tok Htok; cbn [split_from].
  - case_decide; [done|]. by repeat constructor.
  - destruct (isspace c) eqn:Hc.
    + case_decide; [by apply IH|].
      constructor; [done|]. by apply IH.
    + apply IH. rewrite chars_app. apply Forall_app. split; [done|].
      by repeat constructor.
Qed.

Lemma split_from_blank s :
  Forall (λ c, isspace c = true) (list_ascii_of_string s) →
  split_from "" s = [].
Proof.
  induction s as [|c s IH]; [done|]. simpl. intros [Hc Hs]%Forall_cons.
  rewrite Hc. by apply IH.
Qed.

Lemma split_from_one_token s : ∀ tok,
  Forall (λ c, isspace c = false) (list_ascii_of_string s) →
  tok +:+ s ≠ "" →
  split_from tok s = [tok +:+ s].
Proof.
  induction s as [|c s IH]; intros tok Hs Hne; cbn [split_from].
  - rewrite append_nil_r in *. by rewrite decide_False.
  - simpl in Hs. apply Forall_cons in Hs as [Hc Hs]. rewrite Hc.
    rewrite IH; [by rewrite append_assoc|done|].
    by rewrite append_assoc.
Qed.

(** X13. The tokens of [s.split()]: no token is empty and no token holds
    a white-space character; a string of white space only (the empty string
    too) has no token; and a non-empty string without white space is its
    own single token. *)
Theorem str_split_tokens s :
  Forall (λ t, t ≠ "" ∧
               Forall (λ c, isspace c = false) (list_ascii_of_string t))
         (str_split s) ∧
  (Forall (λ c, isspace c = true) (list_ascii_of_string s) →
   str_split s = []) ∧
  (s ≠ "" → Forall (λ c, isspace c = false) (list_ascii_of_string s) →
   str_split s = [s]).
Proof.
  unfold str_split. split_and!.
  - by apply split_from_tokens.
  - apply split_from_blank.
  - intros Hne Hs. by rewrite split_from_one_token.
Qed.



(** ** Paths *)

Lemma upto_last_sep_None b :
  "/"%char ∉ list_ascii_of_string b → upto_last_sep b = None.
Proof.
  induction b as [|c b IH]; [done|]. simpl. rewrite not_elem_of_cons.
  intros [Hc Hb]. rewrite IH by done.
  destruct (Ascii.eqb_spec c "/"); congruence.
Qed.

Lemma upto_last_sep_app a b :
  "/"%char ∉ list_ascii_of_string b →
  upto_last_sep (a +:+ b) = upto_last_sep a.
Proof.
  intros Hb. induction a as [|c a IH]; simpl.
  - by apply upto_last_sep_None.
  - by rewrite IH.
Qed.

Lemma upto_last_sep_endswith a :
  str_endswith_sep a = true → upto_last_sep a = Some a.
Proof.
  induction a as [|c a IH]; [done|]. destruct a as [|c' a].
  - simpl. by intros ->.
  - intros H. change (str_endswith_sep (String c' a) = true) in H.
    cbn [upto_last_sep] in IH |- *. by rewrite (IH H).
Qed.

Lemma endswith_append_sep a : str_endswith_sep (a +:+ "/") = true.
Proof.
  induction a as [|c a IH]; [done|]. destruct a as [|c' a]; [done|].
  exact IH.
Qed.

Lemma startswith_no_sep b :
  "/"%char ∉ list_ascii_of_string b → str_startswith_sep b = false.
Proof.
  destruct b as [|c b]; [done|]. simpl. rewrite not_elem_of_cons.
  intros [Hc _]. unfold str_startswith_sep.
  by destruct c as [[] [] [] [] [] [] [] []].
Qed.

Lemma rstrip_sep_append_sep a : rstrip_sep (a +:+ "/") = rstrip_sep a.
Proof. induction a as [|c a IH]; [done|]. simpl. by rewrite IH. Qed.

Lemma rstrip_sep_idemp s : rstrip_sep (rstrip_sep s) = rstrip_sep s.
Proof.
  induction s as [|c s IH]; [done|]. cbn [rstrip_sep].
  destruct (rstrip_sep s) as [|c' t] eqn:Ht.
  - destruct (Ascii.eqb c "/") eqn:Hc; [done|]. simpl. by rewrite Hc.
  - cbn [rstrip_sep] in IH |- *. by rewrite IH.
Qed.

Lemma rstrip_sep_nil s :
  rstrip_sep s = "" → s = "" ∨ str_endswith_sep s = true.
Proof.
  induction s as [|c s IH]; [by left|]. cbn [rstrip_sep]. right.
  destruct (rstrip_sep s) as [|c' t] eqn:Ht; [|done].
  destruct (Ascii.eqb c "/") eqn:Hc; [|done].
  destruct (IH eq_refl) as [->|Hs]; [done|].
  destruct s as [|c' s]; [done|]. exact Hs.
Qed.

(** A directory name is stripped of its trailing separators unless it
    consists of separators. *)
Lemma rstrip_sep_dirname p :
  rstrip_sep (dirname p) = "" ∨ rstrip_sep (dirname p) = dirname p.
Proof.
  unfold dirname.
  destruct (rstrip_sep (default "" (upto_last_sep p))) as [|c t] eqn:Hr;
    [by left|].
  right. by rewrite <- Hr, rstrip_sep_idemp.
Qed.

Lemma dirname_path_join r b :
  rstrip_sep r = "" ∨ rstrip_sep r = r →
  "/"%char ∉ list_ascii_of_string b →
  dirname (path_join r b) = r.
Proof.
  intros Hr Hb. unfold path_join. rewrite startswith_no_sep by done.
  case_decide as Hnil.
  - subst. unfold dirname. by rewrite upto_last_sep_None.
  - destruct (str_endswith_sep r) eqn:Hend; unfold dirname.
    + rewrite upto_last_sep_app, upto_last_sep_endswith by done. simpl.
      destruct Hr as [-> | ->]; [done|by destruct r].
    + rewrite <- append_assoc, upto_last_sep_app by done.
      rewrite upto_last_sep_endswith by apply endswith_append_sep. simpl.
      rewrite rstrip_sep_append_sep. destruct Hr as [Hr | ->].
      * apply rstrip_sep_nil in Hr as [?|?]; congruence.
      * by destruct r.
Qed.

(** X15. The output file of a record whose name holds no separator lies
    in the directory of the input file: the directory name of the output
    file name is the directory name of the input file name. *)
Theorem out_file_beside_input mat_file plot :
  "/"%char ∉ list_ascii_of_string (name plot) →
  dirname (out_file_of (dirname mat_file) plot) = dirname mat_file.
Proof.
  intros Hname. unfold out_file_of.
  apply dirname_path_join; [apply rstrip_sep_dirname|].
  rewrite chars_app, not_elem_of_app. split; [done|]. simpl.
  rewrite !not_elem_of_cons. split_and!; try done. apply not_elem_of_nil.
Qed.

Lemma out_file_beside_input_witness :
  dirname (out_file_of (dirname "/r/inv.mat")
             (mk_insarPlot "T1_x" [] [] [] None))
  = dirname "/r/inv.mat".
Proof.
  apply (out_file_beside_input "/r/inv.mat"
           (mk_insarPlot "T1_x" [] [] [] None)).
  simpl. rewrite !not_elem_of_cons. split_and!; try done.
  apply not_elem_of_nil.
Defined.





(** ** A single value *)

Lemma elem_of_row_major length width r c :
  r < length → c < width → (r, c) ∈ row_major length width.
Proof.
  intros Hr Hc. unfold row_major. apply list_elem_of_bind.
  exists r. split; [|by apply elem_of_seq; lia].
  apply list_elem_of_fmap_2, elem_of_seq. lia.
Qed.

(** A non-zero cell of a well-formed mask is one of its non-zero cells in
    row-major order. *)
Lemma nonzero_lookup mask r c z :
  wf_ndarray mask →
  item mask r c = Some z → z ≠ 0%Z →
  ∃ k, nonzero mask !! k = Some (r, c).
Proof.
  intros Hwf Hz Hne. apply list_elem_of_lookup_1. unfold nonzero.
  apply list_elem_of_filter. unfold item in *. cbn [fst snd shape ne0 flat].
  case_decide as Hc; [|done]. split.
  - rewrite list_lookup_fmap, Hz. simpl. f_equal.
    by apply negb_true_iff, Z.eqb_neq.
  - apply elem_of_row_major; [|done].
    apply lookup_lt_Some in Hz. rewrite Hwf in Hz. nia.
Qed.

(** X17. A value sequence of one element is broadcast: over a well-formed
    mask the reconstruction succeeds whatever the number of non-zero cells,
    and the grid has the shape of the mask and holds, at every cell, NaN
    where the mask is zero and the single value, rounded to single
    precision, where it is not. *)
Theorem single_value_fills_mask mask v :
  wf_ndarray mask →
  ∃ g, reconstruct mask [v] = Ok g ∧ shape g = shape mask ∧
    ∀ r c z, item mask r c = Some z →
      item g r c = Some (if (z =? 0)%Z then nan else float32 v).
Proof.
  intros Hwf. destruct (reconstruct_broadcast mask v Hwf) as (g & Hg & Hfill).
  exists g. split; [done|].
  split; [by apply (reconstruct_shape _ _ _ Hg)|].
  intros r c z Hz. destruct (Z.eqb_spec z 0) as [->|Hne].
  - by eapply reconstruct_zero.
  - destruct (nonzero_lookup mask r c z) as [k Hk]; [done..|].
    by eapply Hfill.
Qed.

Lemma single_value_fills_mask_witness :
  ∃ g, reconstruct mask_ex [2%float] = Ok g ∧ shape g = shape mask_ex ∧
    ∀ r c z, item mask_ex r c = Some z →
      item g r c = Some (if (z =? 0)%Z then nan else float32 2).
Proof.
  apply (single_value_fills_mask mask_ex). vm_compute. reflexivity.
Defined.

(** ** The names of the output files *)





